(** * ragSocket: the Deepgram speech-to-text relay of [main.py]

    A shallow embedding of the two coroutines of [main.py],
    [deepgram_to_client_receiver] and [websocket_endpoint], and the
    properties of the per-utterance session lifecycle.

    The coroutines talk to three outside parties: the client websocket, the
    Deepgram websocket and the asyncio scheduler.  Their answers are inputs
    of the model (the "world" of a run); what the handler does is an output
    (the trace of a run). *)

From Stdlib Require Import ZArith Lia Ascii String List Bool.
From stdpp Require Import base option list strings gmap.

Set Warnings "-register-all".

Local Open Scope string_scope.
Local Open Scope list_scope.

(** ** Python exceptions *)

(** The exception classes the two coroutines can meet.  All of them derive
    from [Exception], except [CancelledError], which derives from
    [BaseException] only. *)
Inductive exn : Type :=
| JSONDecodeError
| AttributeError
| IndexError
| KeyError
| TypeError
| RuntimeError
| WebSocketDisconnect
| ConnectionResetError
| ClientConnectorError
| WSServerHandshakeError
| ValueError
| CancelledError.

#[global] Instance exn_eq_dec : EqDecision exn.
Proof. solve_decision. Defined.

(** [isinstance(e, Exception)] *)
Definition is_Exception (e : exn) : bool :=
  match e with
  | CancelledError => false
  | _ => true
  end.

(** [isinstance(e, (WebSocketDisconnect, ConnectionResetError))] *)
Definition is_disconnect (e : exn) : bool :=
  match e with
  | WebSocketDisconnect | ConnectionResetError => true
  | _ => false
  end.

(** The result of evaluating an expression that may raise. *)
Inductive result (A : Type) : Type :=
| Ok (a : A)
| Raise (e : exn).
Arguments Ok {A} a.
Arguments Raise {A} e.

#[global] Instance result_ret : MRet result := fun A a => Ok a.

#[global] Instance result_bind : MBind result := fun A B k r =>
  match r with
  | Ok a => k a
  | Raise e => Raise e
  end.

(** ** JSON values, as [json.loads] builds them *)

Inductive json : Type :=
| JNull
| JBool (b : bool)
| JNum (literal : string)
| JStr (s : string)
| JArr (items : list json)
| JObj (fields : gmap string json).

(** [v.get(key, default)]: only a dict has [get]. *)
Definition py_get (v : json) (key : string) (default : json) : result json :=
  match v with
  | JObj fields =>
      match fields !! key with
      | Some x => Ok x
      | None => Ok default
      end
  | _ => Raise AttributeError
  end.

(** ** Characters

    A Python str is kept as the bytes of its UTF-8 encoding, in a [string];
    a lone surrogate, which [json.loads] can produce, has the three bytes
    of the same scheme.  [codepoints] gives the characters of a str. *)

Definition byte_of (n : N) : ascii := ascii_of_N n.

(** The encoding of one code point. *)
Definition utf8_encode (c : N) : string :=
  if (c <? 128)%N then String (byte_of c) EmptyString
  else if (c <? 2048)%N then
    String (byte_of (192 + c / 64))
      (String (byte_of (128 + c mod 64)) EmptyString)
  else if (c <? 65536)%N then
    String (byte_of (224 + c / 4096))
      (String (byte_of (128 + (c / 64) mod 64))
         (String (byte_of (128 + c mod 64)) EmptyString))
  else
    String (byte_of (240 + c / 262144))
      (String (byte_of (128 + (c / 4096) mod 64))
         (String (byte_of (128 + (c / 64) mod 64))
            (String (byte_of (128 + c mod 64)) EmptyString))).

(** The decoder, byte by byte: [pending] continuation bytes are still to
    come for the code point that has [acc] so far. *)
Fixpoint utf8_decode (pending : nat) (acc : N) (s : string) : list N :=
  match s with
  | EmptyString =>
      match pending with
      | O => []
      | S _ => [acc]
      end
  | String b rest =>
      let n := N_of_ascii b in
      match pending with
      | O =>
          if (n <? 128)%N then n :: utf8_decode 0 0 rest
          else if (n <? 192)%N then n :: utf8_decode 0 0 rest
          else if (n <? 224)%N then utf8_decode 1 (n - 192) rest
          else if (n <? 240)%N then utf8_decode 2 (n - 224) rest
          else utf8_decode 3 (n mod 8) rest
      | S O => (acc * 64 + n mod 64)%N :: utf8_decode 0 0 rest
      | S p => utf8_decode p (acc * 64 + n mod 64) rest
      end
  end.

(** The characters of a str. *)
Definition codepoints (s : string) : list N := utf8_decode 0 0 s.

(** [v[0]].  The keys of a decoded dict are strings, so [0] is never one;
    the first item of a str is its first character. *)
Definition py_getitem0 (v : json) : result json :=
  match v with
  | JArr (x :: _) => Ok x
  | JArr [] => Raise IndexError
  | JStr s =>
      match codepoints s with
      | c :: _ => Ok (JStr (utf8_encode c))
      | [] => Raise IndexError
      end
  | JObj _ => Raise KeyError
  | JNull | JBool _ | JNum _ => Raise TypeError
  end.

(** [str.isspace] of one character: the whitespace of Unicode. *)
Definition isspace (c : N) : bool :=
  ((9 <=? c) && (c <=? 13) || (28 <=? c) && (c <=? 32)
   || (c =? 133) || (c =? 160) || (c =? 5760)
   || (8192 <=? c) && (c <=? 8202)
   || (c =? 8232) || (c =? 8233) || (c =? 8239) || (c =? 8287)
   || (c =? 12288))%N.

Fixpoint lstrip (s : list N) : list N :=
  match s with
  | [] => []
  | c :: rest => if isspace c then lstrip rest else s
  end.

(** Drops the trailing whitespace: a character is kept when it is not a
    space or when something is kept after it. *)
Fixpoint rstrip (s : list N) : list N :=
  match s with
  | [] => []
  | c :: rest =>
      match rstrip rest with
      | [] => if isspace c then [] else [c]
      | kept => c :: kept
      end
  end.

(** [s.strip()], on the characters of [s]. *)
Definition strip (s : list N) : list N := rstrip (lstrip s).

(** [v.strip()]: only a str has [strip]. *)
Definition py_strip (v : json) : result (list N) :=
  match v with
  | JStr s => Ok (strip (codepoints s))
  | _ => Raise AttributeError
  end.

(** Truth value of a str. *)
Definition truthy (s : list N) : bool :=
  match s with
  | [] => false
  | _ :: _ => true
  end.

(** [v != s] for a str literal [s]. *)
Definition py_ne_str (v : json) (s : string) : bool :=
  match v with
  | JStr s' => negb (String.eqb s' s)
  | _ => true
  end.

(** ** [json.loads]

    The decoder of the standard library, with its defaults: [NaN],
    [Infinity] and [-Infinity] are numbers; a number keeps its literal; an
    integer literal of more than 4300 digits raises [ValueError], the limit
    of the interpreter on the conversion of integers; any other text that
    is not JSON raises [JSONDecodeError].  The nesting of arrays and objects
    is not bounded here: where the interpreter gives up on a deep nesting
    depends on its call stack at that moment. *)

Definition dquote : ascii := ascii_of_nat 34.

Definition is_json_ws (c : ascii) : bool :=
  let n := nat_of_ascii c in
  Nat.eqb n 32 || Nat.eqb n 9 || Nat.eqb n 10 || Nat.eqb n 13.

Fixpoint skip_ws (s : string) : string :=
  match s with
  | EmptyString => EmptyString
  | String c rest => if is_json_ws c then skip_ws rest else s
  end.

Fixpoint strip_prefix (p s : string) : option string :=
  match p, s with
  | EmptyString, _ => Some s
  | String a p', String b s' => if Ascii.eqb a b then strip_prefix p' s' else None
  | String _ _, EmptyString => None
  end.

(** The character an escape letter stands for. *)
Definition unescape (c : ascii) : option ascii :=
  if Ascii.eqb c dquote then Some dquote
  else if Ascii.eqb c "\" then Some "\"%char
  else if Ascii.eqb c "/" then Some "/"%char
  else if Ascii.eqb c "b" then Some (ascii_of_nat 8)
  else if Ascii.eqb c "f" then Some (ascii_of_nat 12)
  else if Ascii.eqb c "n" then Some (ascii_of_nat 10)
  else if Ascii.eqb c "r" then Some (ascii_of_nat 13)
  else if Ascii.eqb c "t" then Some (ascii_of_nat 9)
  else None.

Definition hex_val (c : ascii) : option N :=
  let n := N_of_ascii c in
  if ((48 <=? n) && (n <=? 57))%N then Some (n - 48)%N
  else if ((65 <=? n) && (n <=? 70))%N then Some (n - 55)%N
  else if ((97 <=? n) && (n <=? 102))%N then Some (n - 87)%N
  else None.

(** The code unit of the four hex digits of a [\u] escape. *)
Definition hex4 (a b c d : ascii) : option N :=
  match hex_val a, hex_val b, hex_val c, hex_val d with
  | Some x, Some y, Some z, Some w => Some (((x * 16 + y) * 16 + z) * 16 + w)%N
  | _, _, _, _ => None
  end.

Definition is_high_surrogate (n : N) : bool := ((55296 <=? n) && (n <=? 56319))%N.
Definition is_low_surrogate (n : N) : bool := ((56320 <=? n) && (n <=? 57343))%N.

(** The code point of a surrogate pair. *)
Definition surrogate_pair (high low : N) : N :=
  (65536 + (high - 55296) * 1024 + (low - 56320))%N.

(** The bytes of a high surrogate that found no low surrogate. *)
Definition flush (high : option N) : string :=
  match high with
  | Some h => utf8_encode h
  | None => EmptyString
  end.

Definition prepend (p : string) (r : option (string * string))
  : option (string * string) :=
  match r with
  | Some (body, after) => Some (p +:+ body, after)
  | None => None
  end.

(** The body of a string, from after its opening quote up to its closing
    quote: the decoded content and what follows the closing quote.  [high]
    is the high surrogate of a [\u] escape just read, which pairs with a
    low surrogate if the next escape is one. *)
Fixpoint scan_string (high : option N) (s : string) : option (string * string) :=
  match s with
  | EmptyString => None
  | String c rest =>
      if Ascii.eqb c dquote then Some (flush high, rest)
      else if Ascii.eqb c "\" then
        match rest with
        | String "u" (String h1 (String h2 (String h3 (String h4 rest')))) =>
            match hex4 h1 h2 h3 h4 with
            | None => None
            | Some n =>
                match high with
                | Some h =>
                    if is_low_surrogate n then
                      prepend (utf8_encode (surrogate_pair h n))
                        (scan_string None rest')
                    else if is_high_surrogate n then
                      prepend (utf8_encode h) (scan_string (Some n) rest')
                    else
                      prepend (utf8_encode h +:+ utf8_encode n)
                        (scan_string None rest')
                | None =>
                    if is_high_surrogate n then scan_string (Some n) rest'
                    else prepend (utf8_encode n) (scan_string None rest')
                end
            end
        | String e rest' =>
            match unescape e with
            | Some ch =>
                prepend (flush high +:+ String ch EmptyString)
                  (scan_string None rest')
            | None => None
            end
        | EmptyString => None
        end
      else if Nat.ltb (nat_of_ascii c) 32 then None
      else
        prepend (flush high +:+ String c EmptyString) (scan_string None rest)
  end.

Definition is_digit (c : ascii) : bool :=
  let n := nat_of_ascii c in Nat.leb 48 n && Nat.leb n 57.

(** The longest prefix of digits, and the rest. *)
Fixpoint span_digits (s : string) : string * string :=
  match s with
  | String c rest =>
      if is_digit c
      then let '(ds, after) := span_digits rest in (String c ds, after)
      else (EmptyString, s)
  | EmptyString => (EmptyString, EmptyString)
  end.

(** At least one digit. *)
Definition scan_digits1 (s : string) : option (string * string) :=
  match span_digits s with
  | (EmptyString, _) => None
  | (ds, after) => Some (ds, after)
  end.

(** The integer part: a lone [0], or digits that do not start with [0]. *)
Definition scan_int (s : string) : option (string * string) :=
  match s with
  | String "0" rest => Some ("0", rest)
  | _ => scan_digits1 s
  end.

Definition scan_frac (s : string) : option (string * string) :=
  match s with
  | String "." rest =>
      match scan_digits1 rest with
      | Some (ds, after) => Some (String "." ds, after)
      | None => Some (EmptyString, s)
      end
  | _ => Some (EmptyString, s)
  end.

Definition scan_sign (s : string) : string * string :=
  match s with
  | String "+" rest => ("+", rest)
  | String "-" rest => ("-", rest)
  | _ => (EmptyString, s)
  end.

Definition scan_exp (s : string) : option (string * string) :=
  match s with
  | String c rest =>
      if Ascii.eqb c "e" || Ascii.eqb c "E" then
        let '(sg, rest') := scan_sign rest in
        match scan_digits1 rest' with
        | Some (ds, after) => Some (String c (sg +:+ ds), after)
        | None => Some (EmptyString, s)
        end
      else Some (EmptyString, s)
  | EmptyString => Some (EmptyString, s)
  end.

(** The result of reading a part of a text: a value and what follows it,
    a text that is not JSON, or an integer literal beyond the limit. *)
Inductive parsed (A : Type) : Type :=
| Parsed (a : A) (rest : string)
| Malformed
| DigitLimit.
Arguments Parsed {A} a rest.
Arguments Malformed {A}.
Arguments DigitLimit {A}.

(** The limit of the interpreter on the digits of an integer literal. *)
Definition int_max_str_digits : N := 4300.

(** A number literal and what follows it.  The literal of a float is as
    long as it likes; the scanner stops where the fraction or the exponent
    is incomplete and leaves the rest to the caller. *)
Definition scan_number (s : string) : parsed json :=
  let '(minus, s0) :=
    match s with
    | String "-" rest => ("-", rest)
    | _ => (EmptyString, s)
    end in
  match scan_int s0 with
  | None => Malformed
  | Some (i, s1) =>
      match scan_frac s1, scan_exp s1 with
      | Some (EmptyString, _), Some (EmptyString, _) =>
          if (int_max_str_digits <? N.of_nat (String.length i))%N
          then DigitLimit
          else Parsed (JNum (minus +:+ i)) s1
      | Some (f, s2), _ =>
          match scan_exp s2 with
          | Some (e, s3) => Parsed (JNum (minus +:+ i +:+ f +:+ e)) s3
          | None => Malformed
          end
      | None, _ => Malformed
      end
  end.

(** A value, the elements of an array after its first bracket, the members
    of an object after its brace.  A later member replaces an earlier one
    with the same key, as the dict that [json.loads] fills does. *)
Fixpoint parse_value (fuel : nat) (s : string) : parsed json :=
  match fuel with
  | O => Malformed
  | S fuel' =>
      match skip_ws s with
      | EmptyString => Malformed
      | String c rest =>
          if Ascii.eqb c "{" then
            match skip_ws rest with
            | String "}" after => Parsed (JObj ∅) after
            | _ =>
                match parse_members fuel' rest ∅ with
                | Parsed fields after => Parsed (JObj fields) after
                | Malformed => Malformed
                | DigitLimit => DigitLimit
                end
            end
          else if Ascii.eqb c "[" then
            match skip_ws rest with
            | String "]" after => Parsed (JArr []) after
            | _ =>
                match parse_elements fuel' rest with
                | Parsed items after => Parsed (JArr items) after
                | Malformed => Malformed
                | DigitLimit => DigitLimit
                end
            end
          else if Ascii.eqb c dquote then
            match scan_string None rest with
            | Some (body, after) => Parsed (JStr body) after
            | None => Malformed
            end
          else if Ascii.eqb c "n" then
            match strip_prefix "ull" rest with
            | Some after => Parsed JNull after
            | None => Malformed
            end
          else if Ascii.eqb c "t" then
            match strip_prefix "rue" rest with
            | Some after => Parsed (JBool true) after
            | None => Malformed
            end
          else if Ascii.eqb c "f" then
            match strip_prefix "alse" rest with
            | Some after => Parsed (JBool false) after
            | None => Malformed
            end
          else if Ascii.eqb c "N" then
            match strip_prefix "aN" rest with
            | Some after => Parsed (JNum "NaN") after
            | None => Malformed
            end
          else if Ascii.eqb c "I" then
            match strip_prefix "nfinity" rest with
            | Some after => Parsed (JNum "Infinity") after
            | None => Malformed
            end
          else
            match strip_prefix "-Infinity" (String c rest) with
            | Some after => Parsed (JNum "-Infinity") after
            | None => scan_number (String c rest)
            end
      end
  end
with parse_elements (fuel : nat) (s : string) : parsed (list json) :=
  match fuel with
  | O => Malformed
  | S fuel' =>
      match parse_value fuel' s with
      | Malformed => Malformed
      | DigitLimit => DigitLimit
      | Parsed v rest =>
          match skip_ws rest with
          | String "," rest' =>
              match parse_elements fuel' rest' with
              | Parsed vs after => Parsed (v :: vs) after
              | Malformed => Malformed
              | DigitLimit => DigitLimit
              end
          | String "]" after => Parsed [v] after
          | _ => Malformed
          end
      end
  end
with parse_members (fuel : nat) (s : string) (acc : gmap string json)
  : parsed (gmap string json) :=
  match fuel with
  | O => Malformed
  | S fuel' =>
      match skip_ws s with
      | String c rest =>
          if Ascii.eqb c dquote then
            match scan_string None rest with
            | None => Malformed
            | Some (key, rest1) =>
                match skip_ws rest1 with
                | String ":" rest2 =>
                    match parse_value fuel' rest2 with
                    | Malformed => Malformed
                    | DigitLimit => DigitLimit
                    | Parsed v rest3 =>
                        match skip_ws rest3 with
                        | String "," rest4 =>
                            parse_members fuel' rest4 (<[key := v]> acc)
                        | String "}" after => Parsed (<[key := v]> acc) after
                        | _ => Malformed
                        end
                    end
                | _ => Malformed
                end
            end
          else Malformed
      | EmptyString => Malformed
      end
  end.

(** [json.loads(text)] *)
Definition json_loads (text : string) : result json :=
  match parse_value (2 * String.length text + 2) text with
  | Parsed v rest =>
      match skip_ws rest with
      | EmptyString => Ok v
      | String _ _ => Raise JSONDecodeError
      end
  | Malformed => Raise JSONDecodeError
  | DigitLimit => Raise ValueError
  end.

(** JSON texts are written below with ['] for the double quote. *)
Fixpoint q (s : string) : string :=
  match s with
  | EmptyString => EmptyString
  | String c rest => String (if Ascii.eqb c "'" then dquote else c) (q rest)
  end.

(** ** The world of a run and the trace of a run *)

(** [aiohttp.WSMsgType] *)
Inductive WSMsgType : Type :=
| CONTINUATION | TEXT | BINARY | PING | PONG | CLOSE | CLOSING | CLOSED | ERROR.

#[global] Instance WSMsgType_eq_dec : EqDecision WSMsgType.
Proof. solve_decision. Defined.

(** One turn of [async for msg in dg_ws]: the iterator yields a message, of
    type [ty] and payload [data], or raises.  [send] is the outcome of the
    [client_ws.send_json] that this message leads to, should it lead to
    one: [None] when the send goes through, [Some e] when it raises [e]. *)
Inductive upstream_item : Type :=
| UMsg (ty : WSMsgType) (data : string) (send : option exn)
| URaise (e : exn).

(** The lines the two coroutines print. *)
Inductive log_line : Type :=
| LogClientConnected
| LogStartSignal
| LogDeepgramClosed
| LogReceiverError (e : exn)
| LogCleanedUp
| LogClientDisconnected
| LogError (e : exn)
| LogClosing.

(** What a coroutine received, or the exception the receive raised. *)
Inductive recv (A : Type) : Type :=
| Got (a : A)
| Failed (e : exn).
Arguments Got {A} a.
Arguments Failed {A} e.

(** An audio frame. *)
Abbreviation bytes := (list Byte.byte).

(** What the handler and the relay do, in the order they do it.  An action
    on a connection carries the outcome the world gave it. *)
Inductive action : Type :=
| AAccept
| ALog (l : log_line)
| AReceiveText (r : recv string)
| AOpenSession
| AConnect (r : option exn)
| ACreateReceiver
| ACreateClientTask
| AClientTaskDone (r : recv bytes)
| ACancelClientTask
| ASendBytes (frame : bytes) (r : option exn)
| ASendJson (payload : json) (r : option exn)
| ACancelReceiver
| ACloseUpstream (r : option exn)
| ACloseSession (r : option exn)
| AWaitFailed (e : exn)
| AAcceptFailed (e : exn).

Abbreviation trace := (list action).

(** ** [deepgram_to_client_receiver] *)

(** Line 37: the transcript of the first alternative. *)
Definition first_transcript (response : json) : result json :=
  channel ← py_get response "channel" (JObj ∅);
  alternatives ← py_get channel "alternatives" (JArr [JObj ∅]);
  first ← py_getitem0 alternatives;
  py_get first "transcript" (JStr EmptyString).

(** The payload of a transcript notification. *)
Definition stt_transcript (transcript is_final : json) : json :=
  JObj {[ "type" := JStr "stt_transcript";
          "text" := transcript;
          "isFinal" := is_final ]}.

(** Lines 36 to 45, up to the decision to send: the payload to send, if
    any. *)
Definition on_text (data : string) : result (option json) :=
  response ← json_loads data;
  transcript ← first_transcript response;
  is_final ← py_get response "is_final" (JBool false);
  stripped ← py_strip transcript;
  if truthy stripped
  then Ok (Some (stt_transcript transcript is_final))
  else Ok None.

(** How the loop of the relay stands after some turns: it waits for the
    next message, the iterator is exhausted, the loop ran into [break], or
    an exception left it. *)
Inductive loop_end : Type :=
| Suspended (rest : list upstream_item)
| Exhausted
| Broke
| Raised (e : exn).

(** The [async for] loop of lines 34 to 48, run for at most [n] turns. *)
Fixpoint receiver_loop (n : nat) (items : list upstream_item)
  : trace * loop_end :=
  match n with
  | O => ([], Suspended items)
  | S n' =>
      match items with
      | [] => ([], Exhausted)
      | URaise e :: _ => ([], Raised e)
      | UMsg ty data send :: rest =>
          if decide (ty = TEXT) then
            match on_text data with
            | Raise e => ([], Raised e)
            | Ok None => receiver_loop n' rest
            | Ok (Some payload) =>
                match send with
                | Some e => ([ASendJson payload (Some e)], Raised e)
                | None =>
                    let '(tr, r) := receiver_loop n' rest in
                    (ASendJson payload None :: tr, r)
                end
            end
          else if decide (ty = CLOSED \/ ty = ERROR) then
            ([ALog LogDeepgramClosed], Broke)
          else receiver_loop n' rest
      end
  end.

(** An [asyncio] task running the relay: not finished, with the messages the
    upstream has still to deliver; finished, by returning ([None]) or with
    the exception that left the coroutine; cancelled. *)
Inductive task_state : Type :=
| TPending (rest : list upstream_item)
| TFinished (r : option exn)
| TCancelled.

(** [task.done()] *)
Definition done (t : task_state) : bool :=
  match t with
  | TPending _ => false
  | TFinished _ | TCancelled => true
  end.

(** [task.cancel()]: a no-op on a task that is done. *)
Definition cancel (t : task_state) : task_state :=
  match t with
  | TPending _ => TCancelled
  | TFinished _ | TCancelled => t
  end.

(** The coroutine of lines 31 to 50, run for at most [n] turns of its loop:
    the [try] around the loop catches what is an [Exception]. *)
Definition deepgram_to_client_receiver (n : nat) (items : list upstream_item)
  : trace * task_state :=
  let '(tr, r) := receiver_loop n items in
  match r with
  | Suspended rest => (tr, TPending rest)
  | Exhausted | Broke => (tr, TFinished None)
  | Raised e =>
      if is_Exception e
      then (tr ++ [ALog (LogReceiverError e)], TFinished None)
      else (tr, TFinished (Some e))
  end.

(** The relay run until it finishes: [S (length items)] turns are enough. *)
Definition run_receiver (items : list upstream_item) : trace * task_state :=
  deepgram_to_client_receiver (S (length items)) items.

(** The scheduler lets a task make [n] more turns. *)
Definition resume (n : nat) (t : task_state) : trace * task_state :=
  match t with
  | TPending rest => deepgram_to_client_receiver n rest
  | _ => ([], t)
  end.

(** The scheduler lets a task run until it is done. *)
Definition resume_all (t : task_state) : trace * task_state :=
  match t with
  | TPending rest => run_receiver rest
  | _ => ([], t)
  end.

(** ** [websocket_endpoint] *)

(** One turn of the forwarding loop in which the relay does not finish
    alone: [asyncio.wait] returns with [client_data_task] done, or it
    raises, as it does when the handler is cancelled while it waits. *)
Record round : Type := {
  (** turns the relay makes while the handler is suspended in [asyncio.wait] *)
  r_before : nat;
  (** the exception [asyncio.wait] raises, if it raises *)
  r_wait : option exn;
  (** how [client_data_task] completed *)
  r_client : recv bytes;
  (** turns the relay makes while the handler is suspended in [send_bytes] *)
  r_during : nat;
  (** the outcome of [dg_ws.send_bytes] *)
  r_send : option exn;
}.

(** What the world answers during one utterance session.  When [sw_rounds]
    is used up the client stays silent, and [asyncio.wait] returns when the
    relay is done. *)
Record session_world : Type := {
  (** the outcome of [aiohttp_session.ws_connect] *)
  sw_connect : option exn;
  (** what [dg_ws] delivers to the relay *)
  sw_upstream : list upstream_item;
  sw_rounds : list round;
  (** [dg_ws.closed], when line 108 reads it *)
  sw_dg_closed : bool;
  (** the outcome of [dg_ws.close()] *)
  sw_dg_close : option exn;
  (** [aiohttp_session.closed], when line 110 reads it *)
  sw_session_closed : bool;
  (** the outcome of [aiohttp_session.close()] *)
  sw_session_close : option exn;
}.

(** One turn of the outer loop: what [receive_text] gives and, should the
    text start a session, the world of that session. *)
Record turn : Type := {
  t_text : recv string;
  t_session : session_world;
}.

(** A block of statements: what it did, and the exception that left it. *)
Abbreviation block := (trace * option exn)%type.

(** Sequencing: the second block runs when the first one did not raise. *)
Definition and_then (a b : block) : block :=
  match a with
  | (tr, Some e) => (tr, Some e)
  | (tr, None) => (tr ++ b.1, b.2)
  end.

(** [try: body finally: fin].  The [finally] block runs in any case; its
    exception, if it raises, replaces the one in flight. *)
Definition try_finally (body fin : block) : block :=
  (body.1 ++ fin.1,
   match fin.2 with
   | Some e => Some e
   | None => body.2
   end).

(** The forwarding loop of lines 90 to 102, with the relay running under
    it. *)
Fixpoint forwarding_loop (rounds : list round) (receiver_task : task_state)
  : trace * task_state * option exn :=
  if done receiver_task then ([], receiver_task, None)
  else
    match rounds with
    | [] =>
        (* the relay finishes while the receive is pending *)
        let '(tr, task) := resume_all receiver_task in
        (ACreateClientTask :: tr ++ [ACancelClientTask], task, None)
    | r :: rounds' =>
        let '(tr1, task1) := resume (r_before r) receiver_task in
        match r_wait r with
        | Some e =>
            (* [asyncio.wait] raises: the receive stays pending *)
            (ACreateClientTask :: tr1 ++ [AWaitFailed e], task1, Some e)
        | None =>
            match r_client r with
            | Failed e =>
                (* [client_data_task.result()] raises *)
                (ACreateClientTask :: tr1 ++ [AClientTaskDone (Failed e)],
                 task1, Some e)
            | Got frame =>
                let '(tr2, task2) := resume (r_during r) task1 in
                let sent :=
                  ACreateClientTask :: tr1 ++ [AClientTaskDone (Got frame)]
                  ++ tr2 ++ [ASendBytes frame (r_send r)] in
                match r_send r with
                | Some e => (sent, task2, Some e)
                | None =>
                    let '(tr3, task3, res) := forwarding_loop rounds' task2 in
                    (sent ++ tr3, task3, res)
                end
            end
        end
    end.

(** Lines 106 and 107. *)
Definition cancel_receiver (receiver_task : option task_state)
  : trace * option task_state :=
  match receiver_task with
  | Some t =>
      if negb (done t) then ([ACancelReceiver], Some (cancel t))
      else ([], Some t)
  | None => ([], None)
  end.

(** Lines 108 and 109; [dg_ws] is [None] when [ws_connect] did not return. *)
Definition close_upstream (w : session_world) (dg_ws : bool) : block :=
  if dg_ws && negb (sw_dg_closed w)
  then ([ACloseUpstream (sw_dg_close w)], sw_dg_close w)
  else ([], None).

(** Lines 110 and 111. *)
Definition close_session (w : session_world) : block :=
  if negb (sw_session_closed w)
  then ([ACloseSession (sw_session_close w)], sw_session_close w)
  else ([], None).

(** The [finally] block of lines 104 to 112. *)
Definition teardown (w : session_world) (receiver_task : option task_state)
    (dg_ws : bool) : block * option task_state :=
  let '(tr, task) := cancel_receiver receiver_task in
  (and_then (tr, None)
     (and_then (close_upstream w dg_ws)
        (and_then (close_session w)
           ([ALog LogCleanedUp], None))),
   task).

(** Lines 69 to 112: one utterance session.  [receiver_task] is the local
    variable of that name, which a former session may have left bound. *)
Definition utterance_session (w : session_world)
    (receiver_task : option task_state) : block * option task_state :=
  let opened := [ALog LogStartSignal; AOpenSession; AConnect (sw_connect w)] in
  match sw_connect w with
  | Some e =>
      let '(fin, task) := teardown w receiver_task false in
      (try_finally (opened, Some e) fin, task)
  | None =>
      let '(tr, task, res) :=
        forwarding_loop (sw_rounds w) (TPending (sw_upstream w)) in
      let '(fin, task') := teardown w (Some task) true in
      (try_finally (opened ++ ACreateReceiver :: tr, res) fin, task')
  end.

(** How the outer loop stands when the world has no further turn for it:
    suspended in [receive_text], or left by an exception. *)
Inductive loop_exit : Type :=
| AwaitingStart
| Left (e : exn).

(** The outer loop of lines 61 to 112. *)
Fixpoint client_loop (turns : list turn) (receiver_task : option task_state)
  : trace * loop_exit :=
  match turns with
  | [] => ([], AwaitingStart)
  | t :: turns' =>
      match t_text t with
      | Failed e => ([AReceiveText (Failed e)], Left e)
      | Got message =>
          let received := AReceiveText (Got message) in
          match data ← json_loads message; py_get data "action" JNull with
          | Raise e => ([received], Left e)
          | Ok act =>
              if py_ne_str act "start_transcription" then
                let '(tr, r) := client_loop turns' receiver_task in
                (received :: tr, r)
              else
                let '(session, task) :=
                  utterance_session (t_session t) receiver_task in
                match session.2 with
                | Some e => (received :: session.1, Left e)
                | None =>
                    let '(tr, r) := client_loop turns' task in
                    (received :: session.1 ++ tr, r)
                end
          end
      end
  end.

(** How the handler stands at the end of a run. *)
Inductive endpoint_end : Type :=
| ConnectionOpen
| Returned
| Propagated (e : exn).

(** The handlers of lines 114 to 119. *)
Definition on_exit (r : loop_exit) : trace * endpoint_end :=
  match r with
  | AwaitingStart => ([], ConnectionOpen)
  | Left e =>
      if is_disconnect e then
        ([ALog LogClientDisconnected; ALog LogClosing], Returned)
      else if is_Exception e then
        ([ALog (LogError e); ALog LogClosing], Returned)
      else ([ALog LogClosing], Propagated e)
  end.

(** What the world answers when the connection comes in: the outcome of
    [websocket.accept()], and [websocket.client], the address of the client
    or [None]. *)
Record connection : Type := {
  c_accept : option exn;
  c_client : option (string * N);
}.

(** Lines 57 to 119: the handler once it has the identity of its client. *)
Definition serve (turns : list turn) : trace * endpoint_end :=
  let '(tr, r) := client_loop turns None in
  let '(tr', e) := on_exit r in
  (ALog LogClientConnected :: tr ++ tr', e).

(** The coroutine of lines 54 to 119.  Lines 55 and 56 are outside the
    [try]: an exception of [accept], or the [AttributeError] of line 56 when
    there is no client address, leaves the handler at once. *)
Definition websocket_endpoint (c : connection) (turns : list turn)
  : trace * endpoint_end :=
  match c_accept c with
  | Some e => ([AAcceptFailed e], Propagated e)
  | None =>
      match c_client c with
      | None => ([AAccept], Propagated AttributeError)
      | Some _ => let '(tr, e) := serve turns in (AAccept :: tr, e)
      end
  end.

(** ** Vocabulary of the properties *)

(** Characters that are all whitespace. *)
Fixpoint all_space (l : list N) : bool :=
  match l with
  | [] => true
  | c :: rest => isspace c && all_space rest
  end.

(** A text that is empty or made of whitespace only. *)
Definition blank (s : string) : bool := all_space (codepoints s).

(** The payloads sent to the client, in the order of the sends. *)
Fixpoint sent_payloads (tr : trace) : list json :=
  match tr with
  | [] => []
  | ASendJson payload _ :: tr' => payload :: sent_payloads tr'
  | _ :: tr' => sent_payloads tr'
  end.

(** [response] has the published shape, with [t] as the transcript of its
    first alternative. *)
Definition first_alternative_transcript (response : json) (t : string) : Prop :=
  exists (fields channel alt : gmap string json) (others : list json),
    response = JObj fields /\
    fields !! "channel" = Some (JObj channel) /\
    channel !! "alternatives" = Some (JArr (JObj alt :: others)) /\
    alt !! "transcript" = Some (JStr t).

(** [f] is the finality flag of [response]: the value under ["is_final"],
    [False] when there is none. *)
Definition is_final_flag (response : json) (f : json) : Prop :=
  exists fields : gmap string json,
    response = JObj fields /\ f = default (JBool false) (fields !! "is_final").

(** [it] is an upstream text message that decodes to a response with
    transcript [tf.1] and finality flag [tf.2], and the client takes what the
    relay sends for it. *)
Definition transcript_message (it : upstream_item) (tf : string * json) : Prop :=
  exists (data : string) (response : json),
    it = UMsg TEXT data None /\
    json_loads data = Ok response /\
    first_alternative_transcript response tf.1 /\
    is_final_flag response tf.2.

(** [p] is the dict [{"type": "stt_transcript", "text": t, "isFinal": f}]:
    it has these three keys, with these values, and no other key. *)
Definition notification_shape (p : json) (t : string) (f : json) : Prop :=
  exists m : gmap string json,
    p = JObj m /\
    m !! "type" = Some (JStr "stt_transcript") /\
    m !! "text" = Some (JStr t) /\
    m !! "isFinal" = Some f /\
    size m = 3.

(** The notification a transcript calls for: one, unless it is blank. *)
Definition notification (tf : string * json) : list json :=
  if blank tf.1 then [] else [stt_transcript (JStr tf.1) tf.2].


(** The exception the world raises into the relay at this turn, if any. *)
Definition world_raises (it : upstream_item) : option exn :=
  match it with
  | UMsg _ _ send => send
  | URaise e => Some e
  end.

(** ** Monitors

    A monitor reads a trace action by action with one bit of state, and
    rejects the trace at the first action its state forbids. *)

Abbreviation monitor := (bool -> action -> option bool).

Fixpoint run (m : monitor) (s : bool) (tr : trace) : option bool :=
  match tr with
  | [] => Some s
  | a :: tr' =>
      match m s a with
      | Some s' => run m s' tr'
      | None => None
      end
  end.

(** The action is allowed in state [s] and leaves it as it is. *)
Definition neutral (m : monitor) (s : bool) (a : action) : Prop :=
  m s a = Some s.

(** What the relay does: sends to the client and its two log lines. *)
Definition is_relay_action (a : action) : bool :=
  match a with
  | ASendJson _ _ | ALog LogDeepgramClosed | ALog (LogReceiverError _) => true
  | _ => false
  end.

(** The state is whether a [client_data_task] is pending.  A task is
    created when none is pending; it completes or is cancelled while
    pending; the teardown and the outer loop run with none pending. *)
Definition receive_monitor : monitor := fun pending a =>
  match a with
  | ACreateClientTask => if pending then None else Some true
  | AClientTaskDone _ | ACancelClientTask =>
      if pending then Some false else None
  | ACancelReceiver | ACloseUpstream _ | ACloseSession _
  | ALog LogCleanedUp | AReceiveText _ =>
      if pending then None else Some false
  | _ => Some pending
  end.

(** The state is whether an utterance session is active: from the start
    signal to the end of its teardown.  A session starts when none is
    active; the outer loop reads a text when none is active; the actions of
    a session and of its relay happen while one is active. *)
Definition session_monitor : monitor := fun active a =>
  match a with
  | ALog LogStartSignal | AReceiveText _ =>
      if active then None
      else Some (match a with ALog LogStartSignal => true | _ => false end)
  | ALog LogCleanedUp => if active then Some false else None
  | AOpenSession | AConnect _ | ACreateReceiver | ACreateClientTask
  | AClientTaskDone _ | ACancelClientTask | ASendBytes _ _ | ASendJson _ _
  | ACancelReceiver | ACloseUpstream _ | ACloseSession _ | AWaitFailed _
  | ALog LogDeepgramClosed | ALog (LogReceiverError _) =>
      if active then Some true else None
  | _ => Some active
  end.



Definition frames_delivered (tr : trace) : list bytes :=
  omap (fun a => match a with ASendBytes b None => Some b | _ => None end) tr.

(** The trace of one turn of the forwarding loop in which a frame arrives:
    [tr1] and [tr2] are what the relay does during the two suspensions. *)
Definition round_trace (tr1 tr2 : trace) (frame : bytes) (sent : option exn)
  : trace :=
  ACreateClientTask :: tr1 ++ [AClientTaskDone (Got frame)]
  ++ tr2 ++ [ASendBytes frame sent].



(** ** Scenarios *)

(** The upstream message of the spec's scenario. *)
Definition hello_world (final : string) : string :=
  q "{'channel':{'alternatives':[{'transcript':'hello world'}]},'is_final':"
  +:+ final +:+ "}".

Definition start_signal : string := q "{'action': 'start_transcription'}".

(** A text frame that is the start signal. *)
Definition is_start_signal (message : string) : Prop :=
  exists fields : gmap string json,
    json_loads message = Ok (JObj fields) /\
    fields !! "action" = Some (JStr "start_transcription").

(** A turn of the forwarding loop in which nothing fails on the side of the
    handler: the client task delivers a frame and the send goes through. *)
Definition round_ok (r : round) : Prop :=
  r_wait r = None /\ (exists frame, r_client r = Got frame) /\ r_send r = None.

(** A world without a session in it, for the turns that start none. *)
Definition quiet : session_world :=
  {| sw_connect := None; sw_upstream := []; sw_rounds := [];
     sw_dg_closed := false; sw_dg_close := None;
     sw_session_closed := false; sw_session_close := None |}.

(** The upstream rejects the connection. *)
Definition rejected : session_world :=
  {| sw_connect := Some WSServerHandshakeError;
     sw_upstream := []; sw_rounds := [];
     sw_dg_closed := false; sw_dg_close := None;
     sw_session_closed := false; sw_session_close := None |}.

(** The spec's scenario: three audio frames, two transcripts, then the
    upstream closes. *)
Definition audio (b : Byte.byte) : round :=
  {| r_before := 0; r_wait := None; r_client := Got [b]; r_during := 0; r_send := None |}.

Definition utterance : session_world :=
  {| sw_connect := None;
     sw_upstream := [UMsg TEXT (hello_world "false") None;
                     UMsg TEXT (hello_world "true") None;
                     UMsg CLOSED EmptyString None];
     sw_rounds := [audio Byte.x01; audio Byte.x02; audio Byte.x03];
     sw_dg_closed := true; sw_dg_close := None;
     sw_session_closed := false; sw_session_close := None |}.

(** The relay meets a payload that does not decode while audio flows. *)
Definition garbled : session_world :=
  {| sw_connect := None;
     sw_upstream := [UMsg TEXT "{not json" None;
                     UMsg TEXT (hello_world "true") None];
     sw_rounds := [audio Byte.x01];
     sw_dg_closed := false; sw_dg_close := None;
     sw_session_closed := false; sw_session_close := None |}.

(** The second frame cannot be sent upstream. *)
Definition broken_pipe : session_world :=
  {| sw_connect := None;
     sw_upstream := [UMsg TEXT (hello_world "false") None];
     sw_rounds := [audio Byte.x01;
                   {| r_before := 1; r_wait := None; r_client := Got [Byte.x02];
                      r_during := 0; r_send := Some ConnectionResetError |};
                   audio Byte.x03];
     sw_dg_closed := false; sw_dg_close := None;
     sw_session_closed := false; sw_session_close := None |}.

(** The client goes away during the utterance, and closing the upstream
    connection fails. *)
Definition close_fails : session_world :=
  {| sw_connect := None;
     sw_upstream := [];
     sw_rounds := [{| r_before := 0; r_wait := None; r_client := Failed WebSocketDisconnect;
                      r_during := 0; r_send := None |}];
     sw_dg_closed := false; sw_dg_close := Some ConnectionResetError;
     sw_session_closed := false; sw_session_close := None |}.

(** In no session of these turns does [asyncio.wait] raise. *)
Definition waits_return (turns : list turn) : Prop :=
  Forall (fun t => Forall (fun r => r_wait r = None) (sw_rounds (t_session t)))
    turns.

(** The handler is cancelled while it waits for the first audio frame. *)
Definition cancelled_waiting : session_world :=
  {| sw_connect := None;
     sw_upstream := [];
     sw_rounds := [{| r_before := 0; r_wait := Some CancelledError;
                      r_client := Failed CancelledError;
                      r_during := 0; r_send := None |}];
     sw_dg_closed := false; sw_dg_close := None;
     sw_session_closed := false; sw_session_close := None |}.

(** The upstream closes while the handler waits for the first audio frame,
    and the handler is cancelled before it runs again: the relay is done
    and [asyncio.wait] raises. *)
Definition cancelled_after_relay : session_world :=
  {| sw_connect := None;
     sw_upstream := [UMsg CLOSED EmptyString None];
     sw_rounds := [{| r_before := 1; r_wait := Some CancelledError;
                      r_client := Failed CancelledError;
                      r_during := 0; r_send := None |}];
     sw_dg_closed := true; sw_dg_close := None;
     sw_session_closed := false; sw_session_close := None |}.

(** The connection comes up: [accept] returns and the client has an
    address. *)
Definition connects (c : connection) : Prop :=
  c_accept c = None /\ c_client c <> None.

(** A connection that comes up. *)
Definition connected : connection :=
  {| c_accept := None; c_client := Some ("127.0.0.1", 50000%N) |}.

Definition says (message : string) (w : session_world) : turn :=
  {| t_text := Got message; t_session := w |}.

(** ** The connection request of lines 75 to 82 *)

Definition DEEPGRAM_WS_URL : string := "wss://api.deepgram.com/v1/listen".

(** The dict of line 75, in the order of its keys. *)
Definition deepgram_params : list (string * string) :=
  [("model", "nova-2"); ("language", "en-US"); ("smart_format", "true");
   ("interim_results", "true"); ("endpointing", "true");
   ("utterance_end_ms", "2500"); ("punctuate", "true")].

(** [sep.join(parts)] *)
Fixpoint join (sep : string) (parts : list string) : string :=
  match parts with
  | [] => EmptyString
  | [p] => p
  | p :: rest => p +:+ sep +:+ join sep rest
  end.

(** Line 80, for the items of any dict of strings. *)
Definition query_string (params : list (string * string)) : string :=
  join "&" (map (fun kv => kv.1 +:+ "=" +:+ kv.2) params).

(** Line 81. *)
Definition full_url (params : list (string * string)) : string :=
  DEEPGRAM_WS_URL +:+ "?" +:+ query_string params.

(** ** Vocabulary of the further properties *)

(** [c] occurs in [s]. *)
Fixpoint contains (c : ascii) (s : string) : bool :=
  match s with
  | EmptyString => false
  | String a rest => Ascii.eqb a c || contains c rest
  end.

(** [s.split(c, 1)] when [c] occurs in [s]: what is before the first [c]
    and what is after it. *)
Fixpoint split_at (c : ascii) (s : string) : option (string * string) :=
  match s with
  | EmptyString => None
  | String a rest =>
      if Ascii.eqb a c then Some (EmptyString, rest)
      else
        match split_at c rest with
        | Some (before, after) => Some (String a before, after)
        | None => None
        end
  end.

(** [s.split(c)] *)
Fixpoint split_all (c : ascii) (s : string) : list string :=
  match s with
  | EmptyString => [EmptyString]
  | String a rest =>
      if Ascii.eqb a c then EmptyString :: split_all c rest
      else
        match split_all c rest with
        | part :: parts => String a part :: parts
        | [] => [String a EmptyString]
        end
  end.

(** How the receiver of a request reads its query string: the pairs
    between the [&], each cut at its first [=]. *)
Definition parse_qs (s : string) : list (string * string) :=
  match s with
  | EmptyString => []
  | _ =>
      map (fun part => default (part, EmptyString) (split_at "=" part))
        (split_all "&" s)
  end.

(** Parameters that need no escaping: no key has a [&] or a [=], no value
    has a [&]. *)
Definition plain_param (kv : string * string) : Prop :=
  contains "&" kv.1 = false /\ contains "=" kv.1 = false /\
  contains "&" kv.2 = false.

(** A payload that is a transcript notification with a text that is not
    blank. *)
Definition is_transcript_notification (p : json) : Prop :=
  exists (t : string) (f : json),
    notification_shape p t f /\ blank t = false.

(** An upstream message of type [TEXT]. *)
Definition is_text (it : upstream_item) : bool :=
  match it with
  | UMsg TEXT _ _ => true
  | _ => false
  end.

(** An upstream message the loop of the relay has no branch for: neither
    [TEXT] nor [CLOSED] nor [ERROR]. *)
Definition is_passed_over (it : upstream_item) : bool :=
  match it with
  | UMsg (CONTINUATION | BINARY | PING | PONG | CLOSE | CLOSING) _ _ => true
  | _ => false
  end.

(** A decoded response from which line 37 or line 40 cannot get a
    transcript, with the exception this raises: the response is not an
    object, its alternatives are an empty list, or the transcript of its
    first alternative is not a string. *)
Inductive bad_shape : json -> exn -> Prop :=
| bad_not_object (v : json) :
    (forall fields, v <> JObj fields) -> bad_shape v AttributeError
| bad_no_alternative (fields channel : gmap string json) :
    fields !! "channel" = Some (JObj channel) ->
    channel !! "alternatives" = Some (JArr []) ->
    bad_shape (JObj fields) IndexError
| bad_transcript (fields channel alt : gmap string json) (others : list json)
    (t : json) :
    fields !! "channel" = Some (JObj channel) ->
    channel !! "alternatives" = Some (JArr (JObj alt :: others)) ->
    alt !! "transcript" = Some t ->
    (forall s, t <> JStr s) ->
    bad_shape (JObj fields) AttributeError.

(** What is sent to the client, with the outcome of each send, in the
    order of the sends. *)
Definition sends (tr : trace) : list (json * option exn) :=
  omap (fun a => match a with ASendJson p r => Some (p, r) | _ => None end) tr.

(** The action is not a send to the client, or it sends a transcript
    notification whose text is not blank. *)
Definition sends_transcript (a : action) : Prop :=
  match a with
  | ASendJson p _ => is_transcript_notification p
  | _ => True
  end.

(** The client goes away while the relay sends the first transcript. *)
Definition client_gone : session_world :=
  {| sw_connect := None;
     sw_upstream := [UMsg TEXT (hello_world "false") (Some WebSocketDisconnect);
                     UMsg TEXT (hello_world "true") None];
     sw_rounds := [];
     sw_dg_closed := false; sw_dg_close := None;
     sw_session_closed := false; sw_session_close := None |}.

(** What happens inside the forwarding loop: the client task, the sends
    upstream, and what the relay does. *)
Definition is_loop_action (a : action) : bool :=
  match a with
  | ACreateClientTask | AClientTaskDone _ | ACancelClientTask
  | ASendBytes _ _ | AWaitFailed _ => true
  | _ => is_relay_action a
  end.

(** What happens inside a session, from the start signal to the end of
    the teardown. *)
Definition is_session_action (a : action) : bool :=
  match a with
  | ALog LogStartSignal | AOpenSession | AConnect _ | ACreateReceiver
  | ACancelReceiver | ACloseUpstream _ | ACloseSession _
  | ALog LogCleanedUp => true
  | _ => is_loop_action a
  end.

(** The state is whether the session under way has created its relay task
    and has not cancelled it.  A session creates one relay task at most,
    and cancels only the task it created, once at most. *)
Definition receiver_monitor : monitor := fun created a =>
  match a with
  | ALog LogStartSignal => Some false
  | ACreateReceiver => if created then None else Some true
  | ACancelReceiver => if created then Some false else None
  | _ => Some created
  end.

(** The state is whether the handler holds an aiohttp session that it has
    not closed: it closes only a session it has opened, once at most. *)
Definition aiohttp_monitor : monitor := fun opened a =>
  match a with
  | AOpenSession => Some true
  | ACloseSession _ => if opened then Some false else None
  | _ => Some opened
  end.

(** The state is whether the session under way holds an upstream
    connection that the handler has not closed: the relay is started, audio
    is sent and the connection is closed only then. *)
Definition upstream_monitor : monitor := fun connected a =>
  match a with
  | ALog LogStartSignal | AConnect (Some _) => Some false
  | AConnect None => Some true
  | ACreateReceiver | ASendBytes _ _ =>
      if connected then Some true else None
  | ACloseUpstream _ => if connected then Some false else None
  | _ => Some connected
  end.

(** [receiver_task] is unbound or bound to a task that is done. *)
Definition stale (receiver_task : option task_state) : Prop :=
  match receiver_task with
  | Some t => done t = true
  | None => True
  end.

(** The text frames the outer loop read, and those the client sends. *)
Definition texts_read (tr : trace) : list string :=
  omap (fun a => match a with AReceiveText (Got m) => Some m | _ => None end) tr.

Definition texts_offered (turns : list turn) : list string :=
  omap (fun t => match t_text t with Got m => Some m | Failed _ => None end)
    turns.

(** The lines the handlers of lines 114 to 119 print. *)
Definition exit_lines (tr : trace) : list log_line :=
  omap (fun a =>
          match a with
          | ALog LogClientDisconnected => Some LogClientDisconnected
          | ALog (LogError e) => Some (LogError e)
          | ALog LogClosing => Some LogClosing
          | _ => None
          end) tr.

(** The sessions that were started and those whose teardown ran to its
    end. *)
Definition sessions_started (tr : trace) : nat :=
  length (omap (fun a => match a with ALog LogStartSignal => Some a | _ => None end) tr).

Definition sessions_cleaned_up (tr : trace) : nat :=
  length (omap (fun a => match a with ALog LogCleanedUp => Some a | _ => None end) tr).

(** A session in which nothing fails on the side of the handler. *)
Definition clean_session (w : session_world) : Prop :=
  sw_connect w = None /\ Forall round_ok (sw_rounds w) /\
  sw_dg_close w = None /\ sw_session_close w = None.

(** A turn of the outer loop that brings a JSON object and, if that is a
    start signal, a clean session. *)
Definition clean_turn (t : turn) : Prop :=
  exists (message : string) (fields : gmap string json),
    t_text t = Got message /\
    json_loads message = Ok (JObj fields) /\
    (fields !! "action" = Some (JStr "start_transcription") ->
     clean_session (t_session t)).

(** A text frame on which lines 64 to 66 raise, with the exception: it
    does not decode, or it decodes to something that is not an object. *)
Inductive frame_error (message : string) : exn -> Prop :=
| frame_not_json (e : exn) :
    json_loads message = Raise e -> frame_error message e
| frame_not_object (v : json) :
    json_loads message = Ok v -> (forall fields, v <> JObj fields) ->
    frame_error message AttributeError.

(** The teardown of a session raises [e]: the close of the upstream
    connection when it is called, or else the close of the aiohttp session
    when it is called. *)
Definition teardown_raises (w : session_world) (e : exn) : Prop :=
  (sw_connect w = None /\ sw_dg_closed w = false /\ sw_dg_close w = Some e) \/
  ((sw_connect w <> None \/ sw_dg_closed w = true \/ sw_dg_close w = None) /\
   sw_session_closed w = false /\ sw_session_close w = Some e).

(** The client goes away during the utterance, and the close of the
    aiohttp session raises an error that is no disconnect. *)
Definition close_crashes : session_world :=
  {| sw_connect := None;
     sw_upstream := [];
     sw_rounds := [{| r_before := 0; r_wait := None; r_client := Failed WebSocketDisconnect;
                      r_during := 0; r_send := None |}];
     sw_dg_closed := false; sw_dg_close := None;
     sw_session_closed := false; sw_session_close := Some RuntimeError |}.


(** * Proofs *)

(** ** Strings *)

Lemma lstrip_blank (l : list N) : all_space l = true -> lstrip l = [].
Proof.
  induction l as [|c l IH]; simpl; [done|].
  destruct (isspace c); simpl; [exact IH | discriminate].
Qed.

Lemma rstrip_keeps (c : N) (l : list N) :
  isspace c = false -> rstrip (c :: l) <> [].
Proof.
  intros Hc. simpl. destruct (rstrip l); [rewrite Hc|]; discriminate.
Qed.

Lemma lstrip_not_blank (l : list N) :
  all_space l = false ->
  exists c rest, lstrip l = c :: rest /\ isspace c = false.
Proof.
  induction l as [|c l IH]; simpl; [discriminate|].
  destruct (isspace c) eqn:Hc; simpl.
  - exact IH.
  - intros _. exists c, l. by rewrite Hc.
Qed.

Lemma truthy_strip (s : string) :
  truthy (strip (codepoints s)) = negb (blank s).
Proof.
  unfold strip, blank. destruct (all_space (codepoints s)) eqn:Hb; simpl.
  - by rewrite (lstrip_blank _ Hb).
  - destruct (lstrip_not_blank _ Hb) as (c & rest & -> & Hc).
    pose proof (rstrip_keeps c rest Hc) as Hne.
    destruct (rstrip (c :: rest)); [done | reflexivity].
Qed.

(** ** The relay *)

Lemma json_loads_raises (text : string) (e : exn) :
  json_loads text = Raise e -> e = JSONDecodeError \/ e = ValueError.
Proof.
  unfold json_loads.
  destruct (parse_value _ text) as [v rest| |]; [destruct (skip_ws rest)| |];
    intros [= <-] || discriminate; auto.
Qed.

Lemma json_loads_raises_Exception (text : string) (e : exn) :
  json_loads text = Raise e -> is_Exception e = true /\ is_disconnect e = false.
Proof. by intros [-> | ->]%json_loads_raises. Qed.

(** The decoder on texts with escapes, surrogates, the three number
    names and long integer literals. *)
Example json_loads_examples :
  json_loads (q "'\u0041\ud83d\ude00'") = Ok (JStr ("A" +:+ utf8_encode 128512)) /\
  json_loads (q "'\ud800'") = Ok (JStr (utf8_encode 55296)) /\
  json_loads (q "'a\nb'") = Ok (JStr ("a" +:+ String (ascii_of_nat 10) "b")) /\
  json_loads (q "'\x'") = Raise JSONDecodeError /\
  json_loads "[NaN, Infinity, -Infinity, -1.5e3]" =
    Ok (JArr [JNum "NaN"; JNum "Infinity"; JNum "-Infinity"; JNum "-1.5e3"]) /\
  json_loads "1." = Raise JSONDecodeError /\
  json_loads "01" = Raise JSONDecodeError /\
  json_loads (string_of_list_ascii (repeat "1"%char 4300)) =
    Ok (JNum (string_of_list_ascii (repeat "1"%char 4300))) /\
  json_loads (string_of_list_ascii (repeat "1"%char 4301)) = Raise ValueError /\
  json_loads (string_of_list_ascii (repeat "1"%char 4301) +:+ ".5") =
    Ok (JNum (string_of_list_ascii (repeat "1"%char 4301) +:+ ".5")).
Proof. repeat split; vm_compute; reflexivity. Qed.

Lemma py_get_raises (v : json) (key : string) (d : json) (e : exn) :
  py_get v key d = Raise e -> is_Exception e = true.
Proof.
  destruct v; simpl; try (intros [= <-]; reflexivity).
  destruct (fields !! key); discriminate.
Qed.

Lemma py_getitem0_raises (v : json) (e : exn) :
  py_getitem0 v = Raise e -> is_Exception e = true.
Proof.
  destruct v as [| | | s | [|] | ]; simpl;
    try destruct (codepoints s);
    intros [= <-] || discriminate; reflexivity.
Qed.

Lemma py_strip_raises (v : json) (e : exn) :
  py_strip v = Raise e -> is_Exception e = true.
Proof. destruct v; simpl; intros [= <-] || discriminate; reflexivity. Qed.

Lemma first_transcript_raises (response : json) (e : exn) :
  first_transcript response = Raise e -> is_Exception e = true.
Proof.
  unfold first_transcript, mbind, result_bind.
  destruct (py_get response "channel" _) as [ch|e1] eqn:H1;
    [|intros [= <-]; eapply py_get_raises, H1].
  destruct (py_get ch "alternatives" _) as [alts|e2] eqn:H2;
    [|intros [= <-]; eapply py_get_raises, H2].
  destruct (py_getitem0 alts) as [alt|e3] eqn:H3;
    [|intros [= <-]; eapply py_getitem0_raises, H3].
  apply py_get_raises.
Qed.

(** What [on_text] raises is an [Exception]. *)
Lemma on_text_raises (data : string) (e : exn) :
  on_text data = Raise e -> is_Exception e = true.
Proof.
  unfold on_text, mbind, result_bind.
  destruct (json_loads data) as [response|e0] eqn:H0;
    [|intros [= <-]; apply (json_loads_raises_Exception _ _ H0)].
  destruct (first_transcript response) as [t|e1] eqn:H1;
    [|intros [= <-]; eapply first_transcript_raises, H1].
  destruct (py_get response "is_final" _) as [f|e2] eqn:H2;
    [|intros [= <-]; eapply py_get_raises, H2].
  destruct (py_strip t) as [st|e3] eqn:H3;
    [|intros [= <-]; eapply py_strip_raises, H3].
  destruct (truthy st); discriminate.
Qed.

Lemma first_transcript_found (response : json) (t : string) :
  first_alternative_transcript response t ->
  first_transcript response = Ok (JStr t).
Proof.
  intros (fields & channel & alt & others & -> & Hc & Ha & Ht).
  unfold first_transcript, mbind, result_bind. simpl.
  rewrite Hc. simpl. rewrite Ha. simpl. by rewrite Ht.
Qed.


Lemma on_text_transcript (data : string) (response : json) (t : string) (f : json) :
  json_loads data = Ok response ->
  first_alternative_transcript response t ->
  is_final_flag response f ->
  on_text data =
    Ok (if blank t then None else Some (stt_transcript (JStr t) f)).
Proof.
  intros Hd Ht (fields & -> & ->).
  unfold on_text, mbind, result_bind.
  rewrite Hd, (first_transcript_found _ _ Ht). simpl.
  rewrite truthy_strip.
  destruct (fields !! "is_final"), (blank t); reflexivity.
Qed.

(** More fuel than there are messages changes nothing. *)
Lemma receiver_loop_fuel (items : list upstream_item) (n : nat) :
  length items < n ->
  receiver_loop n items = receiver_loop (S (length items)) items.
Proof.
  revert n. induction items as [|it items IH]; intros n Hn.
  - destruct n; [lia | reflexivity].
  - destruct n as [|n]; [lia|]. simpl in Hn.
    assert (Hlt : length items < n) by lia.
    change (length (it :: items)) with (S (length items)).
    cbn [receiver_loop].
    rewrite (IH n Hlt). reflexivity.
Qed.

(** With that much fuel the loop is not left suspended. *)
Lemma receiver_loop_ends (items : list upstream_item) (n : nat) :
  length items < n ->
  forall rest, (receiver_loop n items).2 <> Suspended rest.
Proof.
  revert n. induction items as [|it items IH]; intros n Hn rest.
  - destruct n; [lia | discriminate].
  - destruct n as [|n]; [lia|]. simpl in Hn.
    assert (Hlt : length items < n) by lia.
    specialize (IH n Hlt rest).
    cbn [receiver_loop]. destruct it as [ty data send | e]; [|discriminate].
    destruct (decide (ty = TEXT)).
    + destruct (on_text data) as [[payload|]|]; [|done|discriminate].
      destruct send; [discriminate|].
      destruct (receiver_loop n items). exact IH.
    + destruct (decide (ty = CLOSED \/ ty = ERROR)); [discriminate | done].
Qed.

Lemma receiver_loop_transcripts (items : list upstream_item)
    (tfs : list (string * json)) (rest : list upstream_item) (n : nat) :
  Forall2 transcript_message items tfs ->
  receiver_loop (length items + n) (items ++ rest) =
    (map (fun p => ASendJson p None) (flat_map notification tfs)
       ++ (receiver_loop n rest).1,
     (receiver_loop n rest).2).
Proof.
  induction 1 as [|it tf items tfs Hit _ IH]; simpl.
  - by destruct (receiver_loop n rest).
  - destruct Hit as (data & response & -> & Hd & Ht & Hf).
    rewrite decide_True by done.
    rewrite (on_text_transcript _ _ _ _ Hd Ht Hf), IH.
    unfold notification. by destruct (blank tf.1).
Qed.

Lemma receiver_loop_raises (items : list upstream_item) (n : nat) (e : exn) :
  Forall (fun it => forall e, world_raises it = Some e -> is_Exception e = true)
    items ->
  (receiver_loop n items).2 = Raised e -> is_Exception e = true.
Proof.
  intros Hw. revert n.
  induction Hw as [|it items Hit _ IH]; intros [|n]; simpl; try discriminate.
  destruct it as [ty data send | e']; simpl in Hit.
  - destruct (decide (ty = TEXT)).
    + destruct (on_text data) as [[payload|]|e'] eqn:Ht.
      * destruct send as [e'|].
        -- intros [= <-]. by apply Hit.
        -- specialize (IH n). by destruct (receiver_loop n items).
      * apply IH.
      * intros [= <-]. eapply on_text_raises, Ht.
    + destruct (decide (ty = CLOSED \/ ty = ERROR)); [discriminate | apply IH].
  - intros [= <-]. by apply Hit.
Qed.

(** ** Properties of the relay *)

(** The payload of line 41 has the shape of a notification. *)
Lemma stt_transcript_shape (t : string) (f : json) :
  notification_shape (stt_transcript (JStr t) f) t f.
Proof. eexists. repeat split; vm_compute; reflexivity. Qed.

Lemma notifications_shape (tfs : list (string * json)) :
  Forall2 (fun p tf => notification_shape p tf.1 tf.2)
    (flat_map notification tfs)
    (filter (fun tf => blank tf.1 = false) tfs).
Proof.
  induction tfs as [|[t f] tfs IH]; [constructor|].
  cbn [flat_map]. rewrite filter_cons. unfold notification at 1.
  cbn [fst snd]. destruct (blank t) eqn:Hb.
  - rewrite decide_False by done. exact IH.
  - rewrite decide_True by done. constructor; [|exact IH].
    apply stt_transcript_shape.
Qed.

Lemma run_receiver_transcripts (items : list upstream_item)
    (tfs : list (string * json)) (rest : list upstream_item) :
  Forall2 transcript_message items tfs ->
  run_receiver (items ++ rest) =
    (map (fun p => ASendJson p None) (flat_map notification tfs)
       ++ (run_receiver rest).1,
     (run_receiver rest).2).
Proof.
  intros H. unfold run_receiver, deepgram_to_client_receiver.
  replace (S (length (items ++ rest))) with (length items + S (length rest))
    by (rewrite length_app; lia).
  rewrite (receiver_loop_transcripts _ _ _ _ H).
  destruct (receiver_loop (S (length rest)) rest) as [tr r]. simpl.
  destruct r as [| | |e]; try reflexivity.
  destruct (is_Exception e); [|reflexivity].
  by rewrite <- app_assoc.
Qed.

(** C5: every decoded upstream text message leads to exactly one
    notification [{"type": "stt_transcript", "text": t, "isFinal": f}], with
    [t] the transcript of its first alternative and [f] its finality flag,
    when [t] is not blank, and to none when [t] is empty or whitespace only;
    the notifications go out in the order of the messages, and the relay
    goes on with what follows.  The relay sends as many payloads as there
    are transcripts that are not blank, each a dict with the three keys
    and the values of its message. *)
Theorem relay_emits_once_per_transcript (items : list upstream_item)
    (tfs : list (string * json)) (rest : list upstream_item) :
  Forall2 transcript_message items tfs ->
  exists payloads : list json,
    Forall2 (fun p tf => notification_shape p tf.1 tf.2) payloads
      (filter (fun tf => blank tf.1 = false) tfs) /\
    run_receiver (items ++ rest) =
      (map (fun p => ASendJson p None) payloads ++ (run_receiver rest).1,
       (run_receiver rest).2).
Proof.
  intros H. exists (flat_map notification tfs). split.
  - apply notifications_shape.
  - by apply run_receiver_transcripts.
Qed.

(** Two transcripts with a text, one of a space and an em space, one that
    is empty; then the upstream closes. *)
Lemma relay_emits_once_per_transcript_witness :
  exists (p1 p2 : json) (m1 m2 : gmap string json),
    run_receiver
      ([UMsg TEXT (hello_world "false") None;
        UMsg TEXT (q "{'channel':{'alternatives':[{'transcript':' "
                   +:+ utf8_encode 8195
                   +:+ q "'}]},'is_final':true}") None;
        UMsg TEXT (q "{'channel':{'alternatives':[{'transcript':''}]}}") None;
        UMsg TEXT (hello_world "true") None]
       ++ [UMsg CLOSED EmptyString None]) =
    ([ASendJson p1 None; ASendJson p2 None; ALog LogDeepgramClosed],
     TFinished None) /\
    p1 = JObj m1 /\ p2 = JObj m2 /\
    m1 !! "type" = Some (JStr "stt_transcript") /\
    m1 !! "text" = Some (JStr "hello world") /\
    m1 !! "isFinal" = Some (JBool false) /\ size m1 = 3 /\
    m2 !! "type" = Some (JStr "stt_transcript") /\
    m2 !! "text" = Some (JStr "hello world") /\
    m2 !! "isFinal" = Some (JBool true) /\ size m2 = 3.
Proof.
  edestruct (relay_emits_once_per_transcript
               [UMsg TEXT (hello_world "false") None;
                UMsg TEXT (q "{'channel':{'alternatives':[{'transcript':' "
                           +:+ utf8_encode 8195
                           +:+ q "'}]},'is_final':true}") None;
                UMsg TEXT (q "{'channel':{'alternatives':[{'transcript':''}]}}")
                  None;
                UMsg TEXT (hello_world "true") None]
               [("hello world", JBool false);
                (" " +:+ utf8_encode 8195, JBool true);
                (EmptyString, JBool false);
                ("hello world", JBool true)]
               [UMsg CLOSED EmptyString None])
    as (payloads & Hshape & Hrun).
  { repeat constructor;
      (eexists _, _; split; [reflexivity|]; split; [vm_compute; reflexivity|];
       split; [eexists _, _, _, _ | eexists _];
       repeat split; vm_compute; reflexivity). }
  assert (Hf : filter (fun tf : string * json => blank tf.1 = false)
                 [("hello world", JBool false);
                  (" " +:+ utf8_encode 8195, JBool true);
                  (EmptyString, JBool false);
                  ("hello world", JBool true)]
               = [("hello world", JBool false); ("hello world", JBool true)])
    by (vm_compute; reflexivity).
  rewrite Hf in Hshape.
  apply Forall2_cons_inv_r in Hshape as (p1 & l1 & H1 & Hshape & ->).
  apply Forall2_cons_inv_r in Hshape as (p2 & l2 & H2 & Hshape & ->).
  apply Forall2_nil_inv_r in Hshape as ->.
  destruct H1 as (m1 & -> & ? & ? & ? & ?).
  destruct H2 as (m2 & -> & ? & ? & ? & ?).
  exists (JObj m1), (JObj m2), m1, m2. rewrite Hrun.
  split; [vm_compute; reflexivity|]. by repeat split.
Defined.



(** C9: whatever fails during the iteration of the relay (the decoding, the
    look-ups, the iterator, the send to the client), the relay catches it,
    logs it and returns: its task finishes without an exception. *)
Theorem relay_never_raises (items : list upstream_item) :
  Forall (fun it => forall e, world_raises it = Some e -> is_Exception e = true)
    items ->
  (run_receiver items).2 = TFinished None /\
  forall e : exn,
    (receiver_loop (S (length items)) items).2 = Raised e ->
    (run_receiver items).1 =
      (receiver_loop (S (length items)) items).1 ++ [ALog (LogReceiverError e)].
Proof.
  intros Hw. unfold run_receiver, deepgram_to_client_receiver.
  pose proof (receiver_loop_raises items (S (length items))) as Hr.
  pose proof (receiver_loop_ends items (S (length items)) ltac:(lia)) as He.
  destruct (receiver_loop (S (length items)) items) as [tr r]. simpl in *.
  destruct r as [rest| | |e].
  - by destruct (He rest).
  - split; [reflexivity | discriminate].
  - split; [reflexivity | discriminate].
  - rewrite (Hr e Hw eq_refl). split; [reflexivity|].
    by intros e' [= <-].
Qed.

Lemma relay_never_raises_witness :
  (run_receiver
     [UMsg TEXT (hello_world "false") None;
      UMsg TEXT (hello_world "true") (Some WebSocketDisconnect);
      UMsg TEXT (hello_world "true") None]).2 = TFinished None /\
  (run_receiver [UMsg TEXT (q "{'channel':{'alternatives':[]}}") None]).1 =
    [ALog (LogReceiverError IndexError)].
Proof.
  split.
  - apply relay_never_raises.
    repeat constructor; simpl; intros e [= <-] || discriminate; reflexivity.
  - apply (relay_never_raises
             [UMsg TEXT (q "{'channel':{'alternatives':[]}}") None]).
    + repeat constructor; simpl; discriminate.
    + vm_compute; reflexivity.
Defined.

(** C2, as the code has it: an upstream text message whose payload does not
    decode ends the relay.  The failure is caught by the [try] around the
    loop and logged, the relay returns without an exception, and no later
    upstream message is processed. *)
Theorem malformed_message_ends_relay (data : string) (e : exn)
    (send : option exn) (rest : list upstream_item) (n : nat) :
  json_loads data = Raise e ->
  deepgram_to_client_receiver (S n) (UMsg TEXT data send :: rest) =
    ([ALog (LogReceiverError e)], TFinished None).
Proof.
  intros Hd. destruct (json_loads_raises_Exception _ _ Hd) as [He _].
  unfold deepgram_to_client_receiver. cbn [receiver_loop].
  rewrite decide_True by done.
  unfold on_text, mbind, result_bind. by rewrite Hd, He.
Qed.

Lemma malformed_message_ends_relay_witness :
  run_receiver [UMsg TEXT "{not json" None; UMsg TEXT (hello_world "true") None]
  = ([ALog (LogReceiverError JSONDecodeError)], TFinished None).
Proof.
  apply (malformed_message_ends_relay "{not json" JSONDecodeError).
  vm_compute; reflexivity.
Defined.

(** C2 fails as stated: after a malformed message the valid message that
    follows, which on its own leads to a notification, is not processed;
    the relay is done, so the forwarding loop of the session is left and
    the session is torn down. *)
Lemma malformed_message_counterexample :
  json_loads "{not json" = Raise JSONDecodeError /\
  sent_payloads (run_receiver [UMsg TEXT (hello_world "true") None]).1 =
    [stt_transcript (JStr "hello world") (JBool true)] /\
  sent_payloads
    (run_receiver
       [UMsg TEXT "{not json" None; UMsg TEXT (hello_world "true") None]).1 =
    [] /\
  (utterance_session garbled None).1 =
    ([ALog LogStartSignal; AOpenSession; AConnect None; ACreateReceiver;
      ACreateClientTask; AClientTaskDone (Got [Byte.x01]);
      ASendBytes [Byte.x01] None;
      ACreateClientTask; ALog (LogReceiverError JSONDecodeError);
      ACancelClientTask;
      ACloseUpstream None; ACloseSession None; ALog LogCleanedUp],
     None).
Proof. repeat split; vm_compute; reflexivity. Qed.

Lemma run_app (m : monitor) (s : bool) (t1 t2 : trace) :
  run m s (t1 ++ t2) =
  match run m s t1 with
  | Some s' => run m s' t2
  | None => None
  end.
Proof.
  revert s. induction t1 as [|a t1 IH]; intros s; simpl; [done|].
  destruct (m s a); [apply IH | done].
Qed.

Lemma run_neutral (m : monitor) (s : bool) (tr : trace) :
  Forall (neutral m s) tr -> run m s tr = Some s.
Proof. induction 1 as [|a tr Ha _ IH]; simpl; [done|]. by rewrite Ha. Qed.

Lemma receiver_loop_actions (n : nat) (items : list upstream_item) :
  Forall (fun a => is_relay_action a = true) (receiver_loop n items).1.
Proof.
  revert items. induction n as [|n IH]; intros items; simpl; [constructor|].
  destruct items as [|[ty data send|e] items]; simpl; try constructor.
  destruct (decide (ty = TEXT)).
  - destruct (on_text data) as [[payload|]|]; simpl; try constructor; [|apply IH].
    destruct send; simpl; [by repeat constructor|].
    specialize (IH items). destruct (receiver_loop n items). by constructor.
  - destruct (decide (ty = CLOSED \/ ty = ERROR)); [by repeat constructor|apply IH].
Qed.

Lemma receiver_actions (n : nat) (items : list upstream_item) :
  Forall (fun a => is_relay_action a = true)
    (deepgram_to_client_receiver n items).1.
Proof.
  unfold deepgram_to_client_receiver.
  pose proof (receiver_loop_actions n items) as H.
  destruct (receiver_loop n items) as [tr [| | |e]]; simpl in *; try done.
  destruct (is_Exception e); simpl; [|done].
  apply Forall_app. split; [done | by repeat constructor].
Qed.

Lemma resume_actions (n : nat) (t : task_state) :
  Forall (fun a => is_relay_action a = true) (resume n t).1.
Proof. destruct t; simpl; [apply receiver_actions | constructor..]. Qed.

Lemma resume_all_actions (t : task_state) :
  Forall (fun a => is_relay_action a = true) (resume_all t).1.
Proof. destruct t; simpl; [apply receiver_actions | constructor..]. Qed.

(** A task that is let run to its end is done. *)
Lemma resume_all_done (t : task_state) : done (resume_all t).2 = true.
Proof.
  destruct t as [items| |]; simpl; try done.
  unfold run_receiver, deepgram_to_client_receiver.
  pose proof (receiver_loop_ends items (S (length items)) ltac:(lia)) as He.
  destruct (receiver_loop (S (length items)) items) as [tr [rest| | |e]];
    simpl in *; try done.
  - by destruct (He rest).
  - by destruct (is_Exception e).
Qed.

Lemma relay_receive_neutral (s : bool) (tr : trace) :
  Forall (fun a => is_relay_action a = true) tr ->
  run receive_monitor s tr = Some s.
Proof.
  intros H. apply run_neutral. eapply Forall_impl; [exact H|].
  intros [| [] | | | | | | | | | | | | | |]; simpl; try discriminate; done.
Qed.

Lemma relay_session_neutral (tr : trace) :
  Forall (fun a => is_relay_action a = true) tr ->
  run session_monitor true tr = Some true.
Proof.
  intros H. apply run_neutral. eapply Forall_impl; [exact H|].
  intros [| [] | | | | | | | | | | | | | |]; simpl; try discriminate; done.
Qed.


(** ** The forwarding loop *)

Section ForwardingRound.
Variables (tr1 tr2 : trace) (frame : bytes) (sent : option exn).
Hypothesis Htr1 : Forall (fun a => is_relay_action a = true) tr1.
Hypothesis Htr2 : Forall (fun a => is_relay_action a = true) tr2.

Lemma round_receive : run receive_monitor false (round_trace tr1 tr2 frame sent) = Some false.
Proof using Htr1 Htr2.
  unfold round_trace. cbn [run receive_monitor].
  rewrite run_app, (relay_receive_neutral _ _ Htr1). cbn [app run receive_monitor].
  by rewrite run_app, (relay_receive_neutral _ _ Htr2).
Qed.

Lemma round_session : run session_monitor true (round_trace tr1 tr2 frame sent) = Some true.
Proof using Htr1 Htr2.
  unfold round_trace. cbn [run session_monitor].
  rewrite run_app, (relay_session_neutral _ Htr1). cbn [app run session_monitor].
  by rewrite run_app, (relay_session_neutral _ Htr2).
Qed.

End ForwardingRound.

Lemma forwarding_receive (rounds : list round) (task : task_state) :
  Forall (fun r => r_wait r = None) rounds ->
  run receive_monitor false (forwarding_loop rounds task).1.1 = Some false.
Proof.
  intros Hw. revert task.
  induction Hw as [|r rounds Hr0 _ IH]; intros task; simpl;
    destruct (done task) eqn:Hd; try done.
  - pose proof (resume_all_actions task) as Ha.
    destruct (resume_all task) as [tr task']. simpl in *.
    by rewrite run_app, (relay_receive_neutral _ _ Ha).
  - pose proof (resume_actions (r_before r) task) as H1.
    destruct (resume (r_before r) task) as [tr1 task1]. simpl in H1.
    rewrite Hr0.
    destruct (r_client r) as [frame|e]; simpl.
    + pose proof (resume_actions (r_during r) task1) as H2.
      destruct (resume (r_during r) task1) as [tr2 task2]. simpl in H2.
      pose proof (round_receive tr1 tr2 frame (r_send r) H1 H2) as Hr.
      unfold round_trace in Hr.
      destruct (r_send r) as [e|]; [exact Hr|].
      specialize (IH task2).
      destruct (forwarding_loop rounds task2) as [[tr3 task3] res].
      simpl in *. by rewrite app_comm_cons, !app_assoc, run_app,
        <- !app_assoc, <- app_comm_cons, Hr.
    + by rewrite run_app, (relay_receive_neutral _ _ H1).
Qed.

Lemma forwarding_session (rounds : list round) (task : task_state) :
  run session_monitor true (forwarding_loop rounds task).1.1 = Some true.
Proof.
  revert task. induction rounds as [|r rounds IH]; intros task; simpl;
    destruct (done task) eqn:Hd; try done.
  - pose proof (resume_all_actions task) as Ha.
    destruct (resume_all task) as [tr task']. simpl in *.
    by rewrite run_app, (relay_session_neutral _ Ha).
  - pose proof (resume_actions (r_before r) task) as H1.
    destruct (resume (r_before r) task) as [tr1 task1]. simpl in H1.
    destruct (r_wait r) as [e|]; simpl;
      [by rewrite run_app, (relay_session_neutral _ H1)|].
    destruct (r_client r) as [frame|e]; simpl.
    + pose proof (resume_actions (r_during r) task1) as H2.
      destruct (resume (r_during r) task1) as [tr2 task2]. simpl in H2.
      pose proof (round_session tr1 tr2 frame (r_send r) H1 H2) as Hr.
      unfold round_trace in Hr.
      destruct (r_send r) as [e|]; [exact Hr|].
      specialize (IH task2).
      destruct (forwarding_loop rounds task2) as [[tr3 task3] res].
      simpl in *. by rewrite app_comm_cons, !app_assoc, run_app,
        <- !app_assoc, <- app_comm_cons, Hr.
    + by rewrite run_app, (relay_session_neutral _ H1).
Qed.



(** ** The teardown and the session *)

(** The steps of the teardown, in their order: a step is reached when the
    steps before it did not raise. *)
Lemma teardown_trace (w : session_world) (receiver_task : option task_state)
    (dg_ws : bool) :
  (teardown w receiver_task dg_ws).1.1 =
    (cancel_receiver receiver_task).1
    ++ (close_upstream w dg_ws).1
    ++ match (close_upstream w dg_ws).2 with
       | Some _ => []
       | None =>
           (close_session w).1
           ++ match (close_session w).2 with
              | Some _ => []
              | None => [ALog LogCleanedUp]
              end
       end.
Proof.
  unfold teardown.
  destruct (cancel_receiver receiver_task) as [tr task]. cbn [fst snd and_then].
  destruct (close_upstream w dg_ws) as [tr1 [e1|]]; cbn [fst snd and_then];
    [by rewrite app_nil_r|].
  destruct (close_session w) as [tr2 [e2|]]; cbn [fst snd and_then];
    by rewrite ?app_nil_r.
Qed.

Ltac teardown_cases w receiver_task dg_ws :=
  unfold teardown, cancel_receiver, close_upstream, close_session;
  destruct receiver_task as [[| |]|], dg_ws,
    (sw_dg_closed w), (sw_dg_close w), (sw_session_closed w),
    (sw_session_close w); simpl.

Lemma teardown_receive (w : session_world) (receiver_task : option task_state)
    (dg_ws : bool) :
  run receive_monitor false (teardown w receiver_task dg_ws).1.1 = Some false.
Proof. teardown_cases w receiver_task dg_ws; reflexivity. Qed.

Lemma teardown_session (w : session_world) (receiver_task : option task_state)
    (dg_ws : bool) :
  run session_monitor true (teardown w receiver_task dg_ws).1.1 =
    Some (match (teardown w receiver_task dg_ws).1.2 with
          | Some _ => true
          | None => false
          end).
Proof. teardown_cases w receiver_task dg_ws; reflexivity. Qed.


Lemma session_receive (w : session_world) (receiver_task : option task_state) :
  Forall (fun r => r_wait r = None) (sw_rounds w) ->
  run receive_monitor false (utterance_session w receiver_task).1.1 = Some false.
Proof.
  intros Hw. unfold utterance_session. destruct (sw_connect w) as [e|].
  - pose proof (teardown_receive w receiver_task false) as Ht.
    destruct (teardown w receiver_task false) as [fin task].
    cbn [fst snd try_finally] in *. by rewrite run_app.
  - pose proof (forwarding_receive (sw_rounds w) (TPending (sw_upstream w)) Hw)
      as Hf.
    destruct (forwarding_loop _ _) as [[tr task] res].
    pose proof (teardown_receive w (Some task) true) as Ht.
    destruct (teardown w (Some task) true) as [fin task'].
    cbn [fst snd try_finally] in *.
    rewrite run_app. cbn [app run receive_monitor]. by rewrite Hf.
Qed.

Lemma session_session (w : session_world) (receiver_task : option task_state) :
  exists s : bool,
    run session_monitor false (utterance_session w receiver_task).1.1 = Some s /\
    ((utterance_session w receiver_task).1.2 = None -> s = false).
Proof.
  unfold utterance_session. destruct (sw_connect w) as [e|].
  - pose proof (teardown_session w receiver_task false) as Ht.
    destruct (teardown w receiver_task false) as [fin task].
    cbn [fst snd try_finally] in *. eexists. split.
    + rewrite run_app. cbn [run session_monitor]. exact Ht.
    + by destruct (fin.2).
  - pose proof (forwarding_session (sw_rounds w) (TPending (sw_upstream w))) as Hf.
    destruct (forwarding_loop _ _) as [[tr task] res].
    pose proof (teardown_session w (Some task) true) as Ht.
    destruct (teardown w (Some task) true) as [fin task'].
    cbn [fst snd try_finally] in *. eexists. split.
    + rewrite run_app. cbn [app run session_monitor]. rewrite Hf. exact Ht.
    + by destruct (fin.2).
Qed.


(** ** The outer loop *)

Lemma client_loop_receive (turns : list turn) (task : option task_state) :
  waits_return turns ->
  run receive_monitor false (client_loop turns task).1 = Some false.
Proof.
  intros Hw. revert task.
  induction Hw as [|t turns Ht _ IH]; intros task; simpl; [done|].
  destruct (t_text t) as [message|e]; [|done].
  destruct (_ ≫= _) as [act|e]; [|done].
  destruct (py_ne_str act "start_transcription").
  - specialize (IH task). by destruct (client_loop turns task).
  - pose proof (session_receive (t_session t) task Ht) as Hs.
    destruct (utterance_session (t_session t) task) as [session task'].
    cbn [fst snd] in *. destruct (session.2); [exact Hs|].
    specialize (IH task'). destruct (client_loop turns task').
    cbn [fst snd run receive_monitor] in *. by rewrite run_app, Hs.
Qed.

Lemma client_loop_session (turns : list turn) (task : option task_state) :
  is_Some (run session_monitor false (client_loop turns task).1).
Proof.
  revert task. induction turns as [|t turns IH]; intros task; simpl; [done|].
  destruct (t_text t) as [message|e]; [|done].
  destruct (_ ≫= _) as [act|e]; [|done].
  destruct (py_ne_str act "start_transcription").
  - specialize (IH task). by destruct (client_loop turns task).
  - pose proof (session_session (t_session t) task) as (s & Hs & Hnone).
    destruct (utterance_session (t_session t) task) as [session task'].
    cbn [fst snd] in *. destruct (session.2).
    + cbn [fst run session_monitor]. by rewrite Hs.
    + rewrite (Hnone eq_refl) in Hs.
      specialize (IH task'). destruct (client_loop turns task').
      cbn [fst snd run session_monitor] in *. by rewrite run_app, Hs.
Qed.

Lemma forwarding_ok (rounds : list round) (task : task_state) :
  Forall round_ok rounds -> (forwarding_loop rounds task).2 = None.
Proof.
  intros H. revert task.
  induction H as [|r rounds (Hw & [frame Hc] & Hs) _ IH]; intros task;
    cbn [forwarding_loop]; destruct (done task); try done.
  - by destruct (resume_all task).
  - destruct (resume (r_before r) task) as [tr1 task1]. rewrite Hw, Hc.
    destruct (resume (r_during r) task1) as [tr2 task2]. rewrite Hs.
    specialize (IH task2).
    by destruct (forwarding_loop rounds task2) as [[tr3 task3] res].
Qed.

Lemma teardown_ok (w : session_world) (receiver_task : option task_state)
    (dg_ws : bool) :
  sw_dg_close w = None -> sw_session_close w = None ->
  (teardown w receiver_task dg_ws).1.2 = None.
Proof.
  intros H1 H2. unfold teardown, close_upstream, close_session.
  destruct (cancel_receiver receiver_task) as [tr task]. rewrite H1, H2.
  by destruct (dg_ws && negb (sw_dg_closed w)), (negb (sw_session_closed w)).
Qed.

Lemma start_signal_action (message : string) :
  is_start_signal message ->
  (data ← json_loads message; py_get data "action" JNull) =
    Ok (JStr "start_transcription").
Proof.
  intros (fields & Hd & Ha). unfold mbind, result_bind.
  rewrite Hd. simpl. by rewrite Ha.
Qed.

(** What a start signal does to the outer loop: the session runs, and the
    loop goes on when the session raised nothing. *)
Lemma client_loop_start (message : string) (w : session_world)
    (turns : list turn) (task : option task_state) :
  is_start_signal message ->
  client_loop (says message w :: turns) task =
    let s := utterance_session w task in
    match s.1.2 with
    | Some e => (AReceiveText (Got message) :: s.1.1, Left e)
    | None =>
        (AReceiveText (Got message) :: s.1.1 ++ (client_loop turns s.2).1,
         (client_loop turns s.2).2)
    end.
Proof.
  intros Hm. unfold says. cbn [client_loop t_text t_session].
  rewrite (start_signal_action _ Hm). cbn [py_ne_str String.eqb negb].
  replace (String.eqb "start_transcription" "start_transcription") with true
    by (symmetry; apply String.eqb_refl).
  cbn [negb]. destruct (utterance_session w task) as [s task'].
  cbn [fst snd]. destruct (s.2); [done|].
  by destruct (client_loop turns task').
Qed.

(** ** Properties of the session lifecycle *)

(** C1, as the code has it.  A failure inside the relay stays inside the
    relay: whatever the upstream delivers, when the connect, the client
    frames, the sends and the two closes go through, the session ends
    without an exception and the outer loop goes on with the next text
    frame.  An upstream connect failure, or a failure that leaves the
    forwarding loop (an audio send that raises), is not caught at the
    session: after the teardown it leaves the outer loop, no further text
    frame is read, and the handler does not stay on the connection. *)
Theorem session_failures_and_the_outer_loop (message : string)
    (w : session_world) (turns : list turn) (task : option task_state) :
  is_start_signal message ->
  let s := utterance_session w task in
  (sw_connect w = None -> Forall round_ok (sw_rounds w) ->
   sw_dg_close w = None -> sw_session_close w = None ->
   client_loop (says message w :: turns) task =
     (AReceiveText (Got message) :: s.1.1 ++ (client_loop turns s.2).1,
      (client_loop turns s.2).2)) /\
  (forall e : exn,
     sw_connect w = Some e \/
     (sw_connect w = None /\
      (forwarding_loop (sw_rounds w) (TPending (sw_upstream w))).2 = Some e) ->
     exists e' : exn,
       client_loop (says message w :: turns) task =
         (AReceiveText (Got message) :: s.1.1, Left e') /\
       (on_exit (Left e')).2 <> ConnectionOpen).
Proof.
  intros Hm s. rewrite (client_loop_start _ _ _ _ Hm). fold s. split.
  - intros Hc Hr Hd Hs.
    assert (Hnone : s.1.2 = None).
    { unfold s, utterance_session. rewrite Hc.
      pose proof (forwarding_ok _ (TPending (sw_upstream w)) Hr) as Hf.
      destruct (forwarding_loop _ _) as [[tr task1] res].
      pose proof (teardown_ok w (Some task1) true Hd Hs) as Ht.
      destruct (teardown w (Some task1) true) as [fin task'].
      cbn [fst snd try_finally] in *. by rewrite Ht, Hf. }
    cbn zeta. by rewrite Hnone.
  - intros e He.
    assert (exists e', s.1.2 = Some e') as [e' He'].
    { unfold s, utterance_session. destruct He as [Hc | [Hc Hf]]; rewrite Hc.
      - destruct (teardown w task false) as [fin task'].
        cbn [fst snd try_finally]. destruct (fin.2); eauto.
      - destruct (forwarding_loop _ _) as [[tr task1] res].
        destruct (teardown w (Some task1) true) as [fin task'].
        cbn [fst snd try_finally] in *. rewrite Hf. destruct (fin.2); eauto. }
    exists e'. cbn zeta. rewrite He'. split; [done|].
    unfold on_exit. by destruct (is_disconnect e'), (is_Exception e').
Qed.

Lemma start_signal_is_start : is_start_signal start_signal.
Proof. eexists. split; vm_compute; reflexivity. Defined.

Lemma session_failures_and_the_outer_loop_witness :
  (client_loop [says start_signal garbled; says start_signal utterance] None).2
    = AwaitingStart /\
  (exists e, (client_loop [says start_signal rejected;
                           says start_signal utterance] None).2 = Left e) /\
  (exists e, (client_loop [says start_signal broken_pipe;
                           says start_signal utterance] None).2 = Left e).
Proof.
  split; [|split].
  - pose proof (session_failures_and_the_outer_loop start_signal garbled
                  [says start_signal utterance] None start_signal_is_start)
      as [H _].
    rewrite H.
    + vm_compute; reflexivity.
    + reflexivity.
    + repeat constructor. eexists; reflexivity.
    + reflexivity.
    + reflexivity.
  - pose proof (session_failures_and_the_outer_loop start_signal rejected
                  [says start_signal utterance] None start_signal_is_start)
      as [_ H].
    destruct (H WSServerHandshakeError) as (e & -> & _); [by left|].
    by exists e.
  - pose proof (session_failures_and_the_outer_loop start_signal broken_pipe
                  [says start_signal utterance] None start_signal_is_start)
      as [_ H].
    destruct (H ConnectionResetError) as (e & -> & _);
      [right; split; vm_compute; reflexivity|].
    by exists e.
Defined.

(** C1 fails as stated: the upstream rejects the connection of the first
    session; the teardown runs, the failure reaches the handler of the
    outer [try], and the start signal that follows is never read. *)
Lemma connect_failure_counterexample :
  websocket_endpoint connected
    [says start_signal rejected; says start_signal utterance] =
  ([AAccept; ALog LogClientConnected;
    AReceiveText (Got start_signal);
    ALog LogStartSignal; AOpenSession; AConnect (Some WSServerHandshakeError);
    ACloseSession None; ALog LogCleanedUp;
    ALog (LogError WSServerHandshakeError); ALog LogClosing],
   Returned).
Proof. vm_compute; reflexivity. Qed.

(** C4, as the code has it: a text frame that decodes to a JSON object
    whose ["action"] is absent or is not ["start_transcription"] is ignored,
    and the loop waits for the next text frame. *)
Theorem other_actions_are_ignored (message : string)
    (fields : gmap string json) (w : session_world) (turns : list turn)
    (task : option task_state) :
  json_loads message = Ok (JObj fields) ->
  fields !! "action" <> Some (JStr "start_transcription") ->
  client_loop (says message w :: turns) task =
    (AReceiveText (Got message) :: (client_loop turns task).1,
     (client_loop turns task).2).
Proof.
  intros Hd Ha. unfold says. cbn [client_loop t_text t_session].
  unfold mbind, result_bind. rewrite Hd. cbn [py_get].
  destruct (fields !! "action") as [v|]; cbn [mbind].
  - assert (Hne : py_ne_str v "start_transcription" = true).
    { destruct v as [| | |s| |]; cbn; try done.
      apply negb_true_iff, String.eqb_neq. congruence. }
    rewrite Hne. by destruct (client_loop turns task).
  - cbn [py_ne_str]. by destruct (client_loop turns task).
Qed.

Lemma other_actions_are_ignored_witness :
  client_loop [says (q "{'action': 'stop'}") quiet;
               says (q "{'text': 'hi'}") quiet] None =
  ([AReceiveText (Got (q "{'action': 'stop'}"));
    AReceiveText (Got (q "{'text': 'hi'}"))],
   AwaitingStart).
Proof.
  erewrite (other_actions_are_ignored (q "{'action': 'stop'}"));
    [|vm_compute; reflexivity|vm_compute; discriminate].
  erewrite (other_actions_are_ignored (q "{'text': 'hi'}"));
    [|vm_compute; reflexivity|vm_compute; discriminate].
  reflexivity.
Defined.

(** C4 fails as stated: a text frame that is not valid JSON, or that is
    valid JSON but not an object, raises in the outer loop; the handler logs
    the error and returns, and the start signal that follows is never
    read. *)
Lemma invalid_frame_counterexample :
  websocket_endpoint connected [says "hello" quiet; says start_signal utterance] =
    ([AAccept; ALog LogClientConnected; AReceiveText (Got "hello");
      ALog (LogError JSONDecodeError); ALog LogClosing],
     Returned) /\
  websocket_endpoint connected [says (q "['start_transcription']") quiet;
                      says start_signal utterance] =
    ([AAccept; ALog LogClientConnected;
      AReceiveText (Got (q "['start_transcription']"));
      ALog (LogError AttributeError); ALog LogClosing],
     Returned).
Proof. split; vm_compute; reflexivity. Qed.


(** C3, as the code has it.  Every session ends in its teardown, also
    when the connect or the forwarding loop raised.  The teardown cancels
    the relay task if it is not done, then closes the upstream connection
    if it is open, then closes the aiohttp session if it is open, then
    logs; each step has its own guard, and a step is reached only when the
    steps before it did not raise. *)
Theorem teardown_runs_in_order (w : session_world) (task : option task_state) :
  exists (body : block) (at_exit : option task_state),
    let dg_ws := match sw_connect w with None => true | Some _ => false end in
    let upstream_open := dg_ws && negb (sw_dg_closed w) in
    let session_open := negb (sw_session_closed w) in
    let failed (r : option exn) := match r with Some _ => true | None => false end in
    utterance_session w task =
      (try_finally body (teardown w at_exit dg_ws).1,
       (teardown w at_exit dg_ws).2) /\
    (sw_connect w = None ->
     at_exit =
       Some (forwarding_loop (sw_rounds w) (TPending (sw_upstream w))).1.2) /\
    (teardown w at_exit dg_ws).1.1 =
      match at_exit with
      | Some t => if done t then [] else [ACancelReceiver]
      | None => []
      end
      ++ (if upstream_open then [ACloseUpstream (sw_dg_close w)] else [])
      ++ (if upstream_open && failed (sw_dg_close w) then []
          else (if session_open then [ACloseSession (sw_session_close w)] else [])
               ++ (if session_open && failed (sw_session_close w) then []
                   else [ALog LogCleanedUp])).
Proof.
  unfold utterance_session. destruct (sw_connect w) as [e|] eqn:Hc.
  - eexists _, task. cbn zeta. split; [|split].
    + by destruct (teardown w task false).
    + discriminate.
    + unfold teardown, cancel_receiver, close_upstream, close_session.
      destruct task as [[| |]|], (sw_dg_closed w), (sw_dg_close w),
        (sw_session_closed w), (sw_session_close w); reflexivity.
  - destruct (forwarding_loop _ _) as [[tr task1] res].
    eexists _, (Some task1). cbn zeta. split; [|split].
    + by destruct (teardown w (Some task1) true).
    + done.
    + unfold teardown, cancel_receiver, close_upstream, close_session.
      destruct (done task1), (sw_dg_closed w), (sw_dg_close w),
        (sw_session_closed w), (sw_session_close w); reflexivity.
Qed.

Lemma teardown_runs_in_order_witness :
  exists body : block,
    (utterance_session utterance None).1 =
      try_finally body ([ACloseSession None; ALog LogCleanedUp], None).
Proof.
  destruct (teardown_runs_in_order utterance None)
    as (body & at_exit & Hs & Hat & Ht).
  exists body. rewrite Hs. cbn [fst]. f_equal.
  rewrite (Hat eq_refl). vm_compute. reflexivity.
Defined.

(** C3 fails as stated: the client goes away during the utterance and
    closing the upstream connection raises; the aiohttp session, which is
    open, is not closed. *)
Lemma close_failure_counterexample :
  sw_session_closed close_fails = false /\
  (utterance_session close_fails None).1 =
    ([ALog LogStartSignal; AOpenSession; AConnect None; ACreateReceiver;
      ACreateClientTask; AClientTaskDone (Failed WebSocketDisconnect);
      ACancelReceiver; ACloseUpstream (Some ConnectionResetError)],
     Some ConnectionResetError).
Proof. split; vm_compute; reflexivity. Qed.

(** C6: in every run at most one utterance session is active.  A session
    starts only when none is active, and the outer loop reads a text frame
    only when none is active, that is after the teardown of the session
    before has completed; everything a session and its relay do happens
    while it is active. *)
Theorem one_session_at_a_time (c : connection) (turns : list turn) :
  is_Some (run session_monitor false (websocket_endpoint c turns).1).
Proof.
  unfold websocket_endpoint, serve.
  destruct (c_accept c) as [e0|]; [done|].
  destruct (c_client c) as [a|]; [|done].
  pose proof (client_loop_session turns None) as [s Hs].
  destruct (client_loop turns None) as [tr r]. cbn [fst] in Hs.
  destruct (on_exit r) as [tr' e] eqn:He. cbn [fst run session_monitor].
  rewrite run_app, Hs. unfold on_exit in He.
  destruct r as [|e0]; [by injection He as <- <-|].
  destruct (is_disconnect e0), (is_Exception e0); by injection He as <- <-.
Qed.



(** C8, as the code has it.  Whenever [asyncio.wait] returns, the
    [client_data_task] it waited for has completed or is cancelled before
    the loop goes on or is left: with the relay done and the receive
    pending, the receive is cancelled before the teardown starts; and a
    receive task is cancelled only while it is pending.  So in every run
    in which [asyncio.wait] itself does not raise, no receive is pending
    when a teardown starts or when the outer loop reads again. *)
Theorem pending_receive_is_cancelled (c : connection) (turns : list turn) :
  waits_return turns ->
  run receive_monitor false (websocket_endpoint c turns).1 = Some false.
Proof.
  intros Hw. unfold websocket_endpoint, serve.
  destruct (c_accept c) as [e0|]; [done|].
  destruct (c_client c) as [a|]; [|done].
  pose proof (client_loop_receive turns None Hw) as Hs.
  destruct (client_loop turns None) as [tr r]. cbn [fst] in Hs.
  destruct (on_exit r) as [tr' e] eqn:He. cbn [fst run receive_monitor].
  rewrite run_app, Hs. unfold on_exit in He.
  destruct r as [|e0]; [by injection He as <- <-|].
  destruct (is_disconnect e0), (is_Exception e0); by injection He as <- <-.
Qed.

Lemma pending_receive_is_cancelled_witness :
  run receive_monitor false
    (websocket_endpoint connected
       [says start_signal utterance; says start_signal broken_pipe]).1
  = Some false.
Proof.
  apply pending_receive_is_cancelled.
  repeat constructor.
Defined.

(** C8 fails as stated, in two runs.  In the first the handler is
    cancelled while it waits in [asyncio.wait]: the exception leaves the
    loop, the teardown runs, and the receive task that was created is
    neither completed nor cancelled.  In the second the relay terminates
    while the receive is pending and the handler is cancelled before it
    runs again: the teardown runs with the relay done and the receive
    still pending. *)
Lemma cancelled_wait_counterexample :
  (websocket_endpoint connected [says start_signal cancelled_waiting] =
     ([AAccept; ALog LogClientConnected; AReceiveText (Got start_signal);
       ALog LogStartSignal; AOpenSession; AConnect None; ACreateReceiver;
       ACreateClientTask; AWaitFailed CancelledError;
       ACancelReceiver; ACloseUpstream None; ACloseSession None;
       ALog LogCleanedUp; ALog LogClosing],
      Propagated CancelledError) /\
   run receive_monitor false
     (websocket_endpoint connected [says start_signal cancelled_waiting]).1
   = None) /\
  (websocket_endpoint connected [says start_signal cancelled_after_relay] =
     ([AAccept; ALog LogClientConnected; AReceiveText (Got start_signal);
       ALog LogStartSignal; AOpenSession; AConnect None; ACreateReceiver;
       ACreateClientTask; ALog LogDeepgramClosed; AWaitFailed CancelledError;
       ACloseSession None; ALog LogCleanedUp; ALog LogClosing],
      Propagated CancelledError) /\
   run receive_monitor false
     (websocket_endpoint connected [says start_signal cancelled_after_relay]).1
   = None).
Proof. split; split; vm_compute; reflexivity. Qed.

(** The scenario of one utterance: a start signal, three audio frames, two
    transcripts of ["hello world"], the first interim and the second final,
    then the upstream closes.  The client gets the two notifications in this
    order and the handler waits for the next start signal. *)
Example one_utterance :
  sent_payloads (websocket_endpoint connected [says start_signal utterance]).1 =
    [stt_transcript (JStr "hello world") (JBool false);
     stt_transcript (JStr "hello world") (JBool true)] /\
  frames_delivered (websocket_endpoint connected [says start_signal utterance]).1 =
    [[Byte.x01]; [Byte.x02]; [Byte.x03]] /\
  (websocket_endpoint connected [says start_signal utterance]).2 = ConnectionOpen.
Proof. split; [|split]; vm_compute; reflexivity. Qed.

(** * Further properties *)

(** ** The connection request *)

Lemma split_at_found (c : ascii) (before after : string) :
  contains c before = false ->
  split_at c (before +:+ String c after) = Some (before, after).
Proof.
  induction before as [|a before IH]; simpl.
  - by rewrite Ascii.eqb_refl.
  - intros H. apply orb_false_iff in H as [Ha Hb].
    by rewrite Ha, (IH Hb).
Qed.

Lemma split_all_whole (c : ascii) (s : string) :
  contains c s = false -> split_all c s = [s].
Proof.
  induction s as [|a s IH]; simpl; [done|].
  intros H. apply orb_false_iff in H as [Ha Hb].
  by rewrite Ha, (IH Hb).
Qed.

Lemma split_all_first (c : ascii) (part rest : string) :
  contains c part = false ->
  split_all c (part +:+ String c rest) = part :: split_all c rest.
Proof.
  induction part as [|a part IH]; simpl.
  - by rewrite Ascii.eqb_refl.
  - intros H. apply orb_false_iff in H as [Ha Hb].
    by rewrite Ha, (IH Hb).
Qed.

Lemma split_all_join (c : ascii) (parts : list string) :
  parts <> [] ->
  Forall (fun p => contains c p = false) parts ->
  split_all c (join (String c EmptyString) parts) = parts.
Proof.
  intros Hne H. induction H as [|p parts Hp Hall IH]; [done|].
  destruct parts as [|p' parts].
  - simpl. by apply split_all_whole.
  - change (join (String c EmptyString) (p :: p' :: parts))
      with (p +:+ String c (join (String c EmptyString) (p' :: parts))).
    rewrite (split_all_first _ _ _ Hp), IH; done.
Qed.

Lemma contains_append (c : ascii) (s1 s2 : string) :
  contains c (s1 +:+ s2) = contains c s1 || contains c s2.
Proof.
  induction s1 as [|a s1 IH]; simpl; [done|]. by rewrite IH, orb_assoc.
Qed.

Lemma parse_qs_items (params : list (string * string)) :
  Forall plain_param params -> parse_qs (query_string params) = params.
Proof.
  intros H. destruct params as [|kv params]; [done|].
  unfold query_string.
  set (enc := fun kv : string * string => kv.1 +:+ "=" +:+ kv.2).
  assert (Hparts : Forall (fun p => contains "&" p = false)
                     (map enc (kv :: params))).
  { apply Forall_map. eapply Forall_impl; [exact H|].
    intros [k v] (Hk & _ & Hv). unfold enc. simpl in *.
    rewrite contains_append, Hk. simpl. exact Hv. }
  assert (Hsplit : split_all "&" (join "&" (map enc (kv :: params)))
                   = map enc (kv :: params)).
  { apply (split_all_join "&"); [done | exact Hparts]. }
  assert (Hne : exists a s, join "&" (map enc (kv :: params)) = String a s).
  { destruct (join "&" (map enc (kv :: params))) as [|a s] eqn:E; [|eauto].
    simpl in Hsplit. injection Hsplit as Hs _.
    destruct kv as [k v]. unfold enc in Hs. simpl in Hs.
    destruct k; discriminate. }
  destruct Hne as (a & s & Hs). unfold parse_qs.
  rewrite Hs, <- Hs, Hsplit, map_map. clear Hs Hsplit Hparts.
  induction H as [|[k v] l (_ & Hk & _) _ IH]; [done|].
  cbn [map]. rewrite IH. unfold enc. cbn [fst snd] in *.
  change (k +:+ "=" +:+ v) with (k +:+ String "=" v).
  by rewrite (split_at_found "=" k v Hk).
Qed.

(** X1: the query string of the request can be read back.  For parameters
    that need no escaping, cutting the URL at its first [?] gives the
    endpoint and the query string, and cutting the query string at each [&]
    and at the first [=] of each part gives the parameters, in their
    order. *)
Theorem query_string_round_trip (params : list (string * string)) :
  Forall plain_param params ->
  split_at "?" (full_url params) = Some (DEEPGRAM_WS_URL, query_string params) /\
  parse_qs (query_string params) = params.
Proof.
  intros H. split; [|by apply parse_qs_items].
  unfold full_url. by apply (split_at_found "?").
Qed.

Lemma query_string_round_trip_witness :
  parse_qs (query_string deepgram_params) = deepgram_params.
Proof.
  apply query_string_round_trip.
  repeat constructor; vm_compute; reflexivity.
Defined.

(** ** Every action of a run *)

Section EveryAction.
Variable P : action -> Prop.
Hypothesis P_relay :
  forall n items, Forall P (deepgram_to_client_receiver n items).1.
Hypothesis P_handler : forall a, (forall p r, a <> ASendJson p r) -> P a.

Lemma resume_every (n : nat) (t : task_state) : Forall P (resume n t).1.
Proof using P_relay. destruct t; simpl; [apply P_relay | constructor..]. Qed.

Lemma resume_all_every (t : task_state) : Forall P (resume_all t).1.
Proof using P_relay. destruct t; simpl; [apply P_relay | constructor..]. Qed.

Lemma forwarding_every (rounds : list round) (task : task_state) :
  Forall P (forwarding_loop rounds task).1.1.
Proof using P_relay P_handler.
  revert task. induction rounds as [|r rounds IH]; intros task;
    cbn [forwarding_loop]; destruct (done task); try constructor.
  - pose proof (resume_all_every task) as Ha.
    destruct (resume_all task) as [tr task']. cbn [fst snd] in *.
    constructor; [by apply P_handler|].
    apply Forall_app. split; [done|]. constructor; [by apply P_handler|done].
  - pose proof (resume_every (r_before r) task) as H1.
    destruct (resume (r_before r) task) as [tr1 task1]. cbn [fst snd] in H1.
    destruct (r_wait r) as [e|].
    { cbn [fst snd]. constructor; [by apply P_handler|].
      apply Forall_app. split; [done|]. constructor; [by apply P_handler|done]. }
    destruct (r_client r) as [frame|e].
    + pose proof (resume_every (r_during r) task1) as H2.
      destruct (resume (r_during r) task1) as [tr2 task2]. cbn [fst snd] in H2.
      assert (Hround : Forall P (round_trace tr1 tr2 frame (r_send r))).
      { unfold round_trace. constructor; [by apply P_handler|].
        apply Forall_app. split; [done|]. constructor; [by apply P_handler|].
        apply Forall_app. split; [done|]. constructor; [by apply P_handler|done]. }
      unfold round_trace in Hround.
      destruct (r_send r) as [e|]; cbn [fst snd]; [exact Hround|].
      specialize (IH task2).
      destruct (forwarding_loop rounds task2) as [[tr3 task3] res].
      cbn [fst snd] in *. apply Forall_app. by split.
    + cbn [fst snd]. constructor; [by apply P_handler|].
      apply Forall_app. split; [done|]. constructor; [by apply P_handler|done].
Qed.

Lemma teardown_every (w : session_world) (receiver_task : option task_state)
    (dg_ws : bool) :
  Forall P (teardown w receiver_task dg_ws).1.1.
Proof using P_handler.
  teardown_cases w receiver_task dg_ws;
    repeat (constructor; [by apply P_handler|]); constructor.
Qed.

Lemma session_every (w : session_world) (receiver_task : option task_state) :
  Forall P (utterance_session w receiver_task).1.1.
Proof using P_relay P_handler.
  unfold utterance_session. destruct (sw_connect w) as [e|].
  - pose proof (teardown_every w receiver_task false) as Ht.
    destruct (teardown w receiver_task false) as [fin task].
    cbn [fst snd try_finally] in *.
    repeat (constructor; [by apply P_handler|]). exact Ht.
  - pose proof (forwarding_every (sw_rounds w) (TPending (sw_upstream w))) as Hf.
    destruct (forwarding_loop _ _) as [[tr task] res].
    pose proof (teardown_every w (Some task) true) as Ht.
    destruct (teardown w (Some task) true) as [fin task'].
    cbn [fst snd try_finally] in *.
    apply Forall_app. split; [|exact Ht].
    repeat (constructor; [by apply P_handler|]). exact Hf.
Qed.

Lemma client_loop_every (turns : list turn) (task : option task_state) :
  Forall P (client_loop turns task).1.
Proof using P_relay P_handler.
  revert task. induction turns as [|t turns IH]; intros task; simpl;
    [constructor|].
  destruct (t_text t) as [message|e];
    [|by constructor; [apply P_handler|constructor]].
  destruct (_ ≫= _) as [act|e];
    [|by constructor; [apply P_handler|constructor]].
  destruct (py_ne_str act "start_transcription").
  - specialize (IH task). destruct (client_loop turns task).
    by constructor; [apply P_handler|].
  - pose proof (session_every (t_session t) task) as Hs.
    destruct (utterance_session (t_session t) task) as [session task'].
    cbn [fst snd] in *. destruct (session.2).
    + by constructor; [apply P_handler|].
    + specialize (IH task'). destruct (client_loop turns task').
      cbn [fst]. constructor; [by apply P_handler|].
      apply Forall_app. by split.
Qed.

Lemma endpoint_every (c : connection) (turns : list turn) :
  Forall P (websocket_endpoint c turns).1.
Proof using P_relay P_handler.
  unfold websocket_endpoint, serve.
  destruct (c_accept c) as [e0|];
    [by constructor; [apply P_handler|constructor]|].
  destruct (c_client c) as [a|];
    [|by constructor; [apply P_handler|constructor]].
  pose proof (client_loop_every turns None) as Hc.
  destruct (client_loop turns None) as [tr r]. cbn [fst] in Hc.
  destruct (on_exit r) as [tr' e] eqn:He. cbn [fst].
  repeat (constructor; [by apply P_handler|]).
  apply Forall_app. split; [done|]. unfold on_exit in He.
  destruct r as [|e0]; [injection He as <- <-; constructor|].
  destruct (is_disconnect e0), (is_Exception e0); injection He as <- <-;
    repeat (constructor; [by apply P_handler|]); constructor.
Qed.
End EveryAction.

(** ** What the relay sends *)

Lemma on_text_payload (data : string) (p : json) :
  on_text data = Ok (Some p) -> is_transcript_notification p.
Proof.
  unfold on_text, mbind, result_bind.
  destruct (json_loads data) as [response|]; [|discriminate].
  destruct (first_transcript response) as [t|]; [|discriminate].
  destruct (py_get response "is_final" _) as [f|]; [|discriminate].
  destruct t as [| | |s| |]; simpl; try discriminate.
  destruct (truthy (strip (codepoints s))) eqn:Hs; [|discriminate].
  intros [= <-]. exists s, f. split; [apply stt_transcript_shape|].
  rewrite truthy_strip in Hs. by destruct (blank s).
Qed.

Lemma receiver_loop_sends_transcripts (n : nat) (items : list upstream_item) :
  Forall sends_transcript (receiver_loop n items).1.
Proof.
  revert items. induction n as [|n IH]; intros items; simpl; [constructor|].
  destruct items as [|[ty data send|e] items]; simpl; try constructor.
  destruct (decide (ty = TEXT)).
  - destruct (on_text data) as [[payload|]|] eqn:Ht; simpl;
      try constructor; [|apply IH].
    pose proof (on_text_payload _ _ Ht) as Hp.
    destruct send; simpl; [by repeat constructor|].
    specialize (IH items). destruct (receiver_loop n items). by constructor.
  - destruct (decide (ty = CLOSED \/ ty = ERROR)); [by repeat constructor|apply IH].
Qed.

Lemma receiver_sends_transcripts (n : nat) (items : list upstream_item) :
  Forall sends_transcript (deepgram_to_client_receiver n items).1.
Proof.
  unfold deepgram_to_client_receiver.
  pose proof (receiver_loop_sends_transcripts n items) as H.
  destruct (receiver_loop n items) as [tr [| | |e]]; simpl in *; try done.
  destruct (is_Exception e); simpl; [|done].
  apply Forall_app. split; [done | by repeat constructor].
Qed.

Lemma sent_payloads_every (P : json -> Prop) (tr : trace) :
  Forall (fun a => match a with ASendJson p _ => P p | _ => True end) tr ->
  Forall P (sent_payloads tr).
Proof.
  induction 1 as [|a tr Ha _ IH]; simpl; [constructor|].
  destruct a; try exact IH. by constructor.
Qed.

(** X2: all that a run of the handler ever sends to the client are
    transcript notifications, [{"type": "stt_transcript", "text": t,
    "isFinal": f}] with [t] a string that is not blank: no error frame, no
    empty transcript, whatever the client and the upstream do. *)
Theorem client_gets_only_transcripts (c : connection) (turns : list turn) :
  Forall is_transcript_notification
    (sent_payloads (websocket_endpoint c turns).1).
Proof.
  apply sent_payloads_every.
  apply (endpoint_every sends_transcript).
  - apply receiver_sends_transcripts.
  - intros a Ha. destruct a; try exact I. by destruct (Ha payload r).
Qed.

(** X3: a decoded response of the wrong shape ends the relay.  When the
    response is not an object, when its list of alternatives is empty, or
    when the transcript of its first alternative is not a string, the
    look-up raises ([AttributeError] or [IndexError]); the relay logs it and
    returns, and sends nothing for this message nor for any later one. *)
Theorem bad_shape_ends_relay (data : string) (response : json) (e : exn)
    (send : option exn) (rest : list upstream_item) (n : nat) :
  json_loads data = Ok response ->
  bad_shape response e ->
  deepgram_to_client_receiver (S n) (UMsg TEXT data send :: rest) =
    ([ALog (LogReceiverError e)], TFinished None).
Proof.
  intros Hd Hb.
  assert (Ht : on_text data = Raise e /\ is_Exception e = true).
  { unfold on_text, first_transcript, mbind, result_bind. rewrite Hd.
    destruct Hb as [v Hv | fields channel Hc Ha
                   | fields channel alt others t Hc Ha Ht Hs].
    - destruct v; try done. by destruct (Hv fields).
    - simpl. rewrite Hc. simpl. by rewrite Ha.
    - simpl. rewrite Hc. simpl. rewrite Ha. simpl. rewrite Ht.
      destruct (fields !! "is_final"); destruct t; try done;
        by destruct (Hs s). }
  destruct Ht as [Ht He].
  unfold deepgram_to_client_receiver. cbn [receiver_loop].
  rewrite decide_True by done. by rewrite Ht, He.
Qed.

Lemma bad_shape_ends_relay_witness :
  run_receiver
    [UMsg TEXT (q "{'channel':{'alternatives':[{'transcript':null}]}}") None;
     UMsg TEXT (hello_world "true") None] =
  ([ALog (LogReceiverError AttributeError)], TFinished None).
Proof.
  eapply (bad_shape_ends_relay _ _ AttributeError).
  - vm_compute; reflexivity.
  - eapply (bad_transcript _ _ _ _ JNull); try (vm_compute; reflexivity).
    discriminate.
Defined.

Lemma receiver_loop_passes_over (items : list upstream_item) (n : nat) :
  length items < n ->
  receiver_loop n items =
  receiver_loop n (filter (fun it => is_passed_over it = false) items).
Proof.
  revert n. induction items as [|it items IH]; intros n Hn; [done|].
  destruct n as [|n]; [lia|]. simpl in Hn.
  assert (Hlt : length items < n) by lia.
  pose proof (length_filter (fun it => is_passed_over it = false) items) as Hf.
  rewrite filter_cons. destruct (decide (is_passed_over it = false)) as [Hk|Hk].
  - cbn [receiver_loop]. rewrite <- (IH n Hlt).
    by destruct it as [[] data send|e].
  - transitivity (receiver_loop n items).
    + by destruct it as [[] data send|e].
    + rewrite (IH n Hlt).
      rewrite (receiver_loop_fuel _ n) by lia.
      by rewrite (receiver_loop_fuel _ (S n)) by lia.
Qed.

(** X4: the upstream messages the loop has no branch for (binary, ping,
    pong, continuation, and also [CLOSE] and [CLOSING]) are passed over:
    the relay does with a stream what it does with the stream without
    them. *)
Theorem relay_passes_over_other_frames (items : list upstream_item) :
  run_receiver items =
  run_receiver (filter (fun it => is_passed_over it = false) items).
Proof.
  unfold run_receiver, deepgram_to_client_receiver.
  pose proof (length_filter (fun it => is_passed_over it = false) items) as Hf.
  rewrite (receiver_loop_passes_over items (S (length items))) by lia.
  by rewrite (receiver_loop_fuel _ (S (length items))) by lia.
Qed.

(** ** The relay under the scheduler *)

Lemma sends_relay_log (tr : trace) (l : log_line) :
  sends (tr ++ [ALog l]) = sends tr.
Proof. unfold sends. by rewrite omap_app, app_nil_r. Qed.

(** Running [n] turns and then [m] turns is running [n + m] turns. *)
Lemma receiver_loop_split (n m : nat) (items : list upstream_item) :
  receiver_loop (n + m) items =
  match receiver_loop n items with
  | (tr1, Suspended rest) =>
      (tr1 ++ (receiver_loop m rest).1, (receiver_loop m rest).2)
  | ended => ended
  end.
Proof.
  revert items. induction n as [|n IH]; intros items.
  - simpl. by destruct (receiver_loop m items).
  - cbn [Nat.add receiver_loop].
    destruct items as [|[ty data send|e] items]; [done| |done].
    destruct (decide (ty = TEXT)).
    + destruct (on_text data) as [[payload|]|]; [|apply IH|done].
      destruct send; [done|]. rewrite IH.
      by destruct (receiver_loop n items) as [tr1 [rest| | |]].
    + destruct (decide (ty = CLOSED \/ ty = ERROR)); [done | apply IH].
Qed.

Lemma receiver_split (n m : nat) (items : list upstream_item) :
  deepgram_to_client_receiver (n + m) items =
  ((deepgram_to_client_receiver n items).1
     ++ (resume m (deepgram_to_client_receiver n items).2).1,
   (resume m (deepgram_to_client_receiver n items).2).2).
Proof.
  unfold deepgram_to_client_receiver. rewrite receiver_loop_split.
  destruct (receiver_loop n items) as [tr1 [rest| | |e]]; cbn [fst snd resume].
  - unfold deepgram_to_client_receiver.
    destruct (receiver_loop m rest) as [tr2 [rest'| | |e]]; cbn [fst snd].
    + done.
    + done.
    + done.
    + destruct (is_Exception e); cbn [fst snd]; by rewrite ?app_assoc.
  - by rewrite app_nil_r.
  - by rewrite app_nil_r.
  - destruct (is_Exception e); cbn [fst snd resume]; by rewrite app_nil_r.
Qed.

Lemma receiver_loop_suspended (n : nat) (items : list upstream_item)
    (rest : list upstream_item) :
  (receiver_loop n items).2 = Suspended rest -> length rest <= length items.
Proof.
  revert items. induction n as [|n IH]; intros items; simpl.
  - by intros [= ->].
  - destruct items as [|[ty data send|e] items]; simpl; try discriminate.
    destruct (decide (ty = TEXT)).
    + destruct (on_text data) as [[payload|]|]; simpl; try discriminate.
      * destruct send; [discriminate|]. specialize (IH items).
        destruct (receiver_loop n items). simpl in *. intros H. 
        specialize (IH H). lia.
      * intros H. specialize (IH items H). lia.
    + destruct (decide (ty = CLOSED \/ ty = ERROR)); [discriminate|].
      intros H. specialize (IH items H). lia.
Qed.

Lemma receiver_fuel (items : list upstream_item) (n : nat) :
  length items < n -> deepgram_to_client_receiver n items = run_receiver items.
Proof.
  intros H. unfold run_receiver, deepgram_to_client_receiver.
  by rewrite (receiver_loop_fuel items n H).
Qed.

Lemma resume_all_of_done (t : task_state) :
  done t = true -> resume_all t = ([], t).
Proof. by destruct t. Qed.

(** Letting a task make some turns and then run to its end is letting it
    run to its end. *)
Lemma resume_then_all (n : nat) (t : task_state) :
  resume_all t =
  ((resume n t).1 ++ (resume_all (resume n t).2).1,
   (resume_all (resume n t).2).2).
Proof.
  destruct t as [items| |]; [|done..]. cbn [resume resume_all].
  rewrite <- (receiver_fuel items (n + S (length items))) by lia.
  rewrite receiver_split.
  assert (H : resume (S (length items)) (deepgram_to_client_receiver n items).2
              = resume_all (deepgram_to_client_receiver n items).2).
  { unfold deepgram_to_client_receiver.
    pose proof (receiver_loop_suspended n items) as Hs.
    destruct (receiver_loop n items) as [tr [rest| | |e]]; cbn [fst snd] in *.
    - specialize (Hs rest eq_refl). cbn [resume resume_all].
      apply receiver_fuel. lia.
    - done.
    - done.
    - by destruct (is_Exception e). }
  by rewrite H.
Qed.

Lemma sends_app (t1 t2 : trace) : sends (t1 ++ t2) = sends t1 ++ sends t2.
Proof. apply omap_app. Qed.

Lemma sends_round (tr1 tr2 : trace) (frame : bytes) (sent : option exn) :
  sends (round_trace tr1 tr2 frame sent) = sends tr1 ++ sends tr2.
Proof.
  unfold round_trace, sends. cbn [omap list_omap]. rewrite !omap_app.
  cbn [omap list_omap app]. by rewrite !app_nil_r.
Qed.

Lemma forwarding_sends (rounds : list round) (task : task_state) :
  sends (resume_all task).1 =
  sends (forwarding_loop rounds task).1.1
  ++ sends (resume_all (forwarding_loop rounds task).1.2).1.
Proof.
  revert task. induction rounds as [|r rounds IH]; intros task;
    cbn [forwarding_loop]; destruct (done task) eqn:Hd; try done.
  - pose proof (resume_all_done task) as Ha.
    destruct (resume_all task) as [tr task']. cbn [fst snd] in *.
    rewrite (resume_all_of_done _ Ha). cbn [fst].
    change (ACreateClientTask :: tr ++ [ACancelClientTask])
      with ([ACreateClientTask] ++ tr ++ [ACancelClientTask]).
    rewrite !sends_app. unfold sends. cbn [omap list_omap app].
    by rewrite !app_nil_r.
  - rewrite (resume_then_all (r_before r) task).
    destruct (resume (r_before r) task) as [tr1 task1]. cbn [fst snd].
    destruct (r_wait r) as [e|]; cbn [fst snd].
    { change (ACreateClientTask :: tr1 ++ [AWaitFailed e])
        with ([ACreateClientTask] ++ tr1 ++ [AWaitFailed e]).
      rewrite !sends_app. unfold sends. cbn [omap list_omap app].
      by rewrite !app_nil_r. }
    destruct (r_client r) as [frame|e]; cbn [fst snd].
    + rewrite (resume_then_all (r_during r) task1).
      destruct (resume (r_during r) task1) as [tr2 task2]. cbn [fst snd].
      destruct (r_send r) as [e|]; cbn [fst snd].
      * change (ACreateClientTask :: tr1 ++ [AClientTaskDone (Got frame)]
                ++ tr2 ++ [ASendBytes frame (Some e)])
          with (round_trace tr1 tr2 frame (Some e)).
        by rewrite !sends_app, sends_round, <- !app_assoc.
      * specialize (IH task2).
        destruct (forwarding_loop rounds task2) as [[tr3 task3] res].
        cbn [fst snd] in *.
        change (ACreateClientTask :: tr1 ++ [AClientTaskDone (Got frame)]
                ++ tr2 ++ [ASendBytes frame None])
          with (round_trace tr1 tr2 frame None).
        by rewrite !sends_app, sends_round, IH, <- !app_assoc.
    + change (ACreateClientTask :: tr1 ++ [AClientTaskDone (Failed e)])
        with ([ACreateClientTask] ++ tr1 ++ [AClientTaskDone (Failed e)]).
      rewrite !sends_app. unfold sends. cbn [omap list_omap app].
      by rewrite !app_nil_r.
Qed.

Lemma teardown_sends (w : session_world) (receiver_task : option task_state)
    (dg_ws : bool) :
  sends (teardown w receiver_task dg_ws).1.1 = [].
Proof. teardown_cases w receiver_task dg_ws; reflexivity. Qed.

Lemma session_sends (w : session_world) (task : option task_state) :
  sends (utterance_session w task).1.1 =
  match sw_connect w with
  | Some _ => []
  | None =>
      sends (forwarding_loop (sw_rounds w) (TPending (sw_upstream w))).1.1
  end.
Proof.
  unfold utterance_session. destruct (sw_connect w) as [e|].
  - pose proof (teardown_sends w task false) as Ht.
    destruct (teardown w task false) as [fin task']. cbn [fst snd try_finally] in *.
    unfold sends in *. cbn [app omap list_omap]. exact Ht.
  - destruct (forwarding_loop _ _) as [[tr task1] res].
    pose proof (teardown_sends w (Some task1) true) as Ht.
    destruct (teardown w (Some task1) true) as [fin task']. 
    cbn [fst snd try_finally] in *. unfold sends in *.
    rewrite omap_app. cbn [app omap list_omap]. by rewrite Ht, app_nil_r.
Qed.

Lemma session_sends_prefix (w : session_world) (task : option task_state) :
  sends (utterance_session w task).1.1
    `prefix_of` sends (run_receiver (sw_upstream w)).1.
Proof.
  rewrite session_sends.
  pose proof (forwarding_sends (sw_rounds w) (TPending (sw_upstream w))) as Hf.
  cbn [resume_all] in Hf.
  destruct (sw_connect w); [apply prefix_nil|]. rewrite Hf. by eexists.
Qed.



Lemma receiver_loop_failed_send (n : nat) (items : list upstream_item)
    (l1 l2 : list (json * option exn)) (p : json) (e : exn) :
  sends (receiver_loop n items).1 = l1 ++ (p, Some e) :: l2 -> l2 = [].
Proof.
  revert items l1. induction n as [|n IH]; intros items l1; simpl.
  - by destruct l1.
  - destruct items as [|[ty data send|e'] items]; simpl;
      try by destruct l1.
    destruct (decide (ty = TEXT)).
    + destruct (on_text data) as [[payload|]|]; simpl;
        [|apply IH|by destruct l1].
      destruct send as [e'|]; simpl.
      * destruct l1 as [|x [|y l1]]; simpl; try discriminate.
        by intros [= _ _ <-].
      * specialize (IH items). destruct (receiver_loop n items) as [tr r].
        cbn [fst]. unfold sends in *. cbn [omap list_omap].
        destruct l1 as [|x l1]; simpl; [discriminate|].
        intros [= _ H]. by apply (IH l1).
    + destruct (decide (ty = CLOSED \/ ty = ERROR)); [by destruct l1|apply IH].
Qed.

Lemma receiver_loop_sends_bound (n : nat) (items : list upstream_item) :
  length (sends (receiver_loop n items).1)
  <= length (filter (fun it => is_text it = true) items).
Proof.
  revert items. induction n as [|n IH]; intros items; simpl; [lia|].
  destruct items as [|[ty data send|e'] items]; simpl; try lia.
  rewrite filter_cons. specialize (IH items).
  destruct (decide (ty = TEXT)) as [->|Hty].
  - rewrite decide_True by done. simpl.
    destruct (on_text data) as [[payload|]|]; simpl; try lia.
    destruct send; simpl; [lia|].
    destruct (receiver_loop n items) as [tr r]. simpl in *. lia.
  - destruct (decide (is_text (UMsg ty data send) = true)) as [Ht|_];
      [by destruct ty|].
    destruct (decide (ty = CLOSED \/ ty = ERROR)); simpl; lia.
Qed.

Lemma run_receiver_sends (items : list upstream_item) :
  sends (run_receiver items).1 = sends (receiver_loop (S (length items)) items).1.
Proof.
  unfold run_receiver, deepgram_to_client_receiver.
  destruct (receiver_loop (S (length items)) items) as [tr [| | |e]];
    cbn [fst]; try done.
  destruct (is_Exception e); cbn [fst]; [apply sends_relay_log | done].
Qed.

(** X6: the relay stops at the first send to the client that fails: in a
    session nothing is sent to the client after a send that raised. *)
Theorem nothing_sent_after_a_failed_send (w : session_world)
    (task : option task_state) (l1 l2 : list (json * option exn))
    (p : json) (e : exn) :
  sends (utterance_session w task).1.1 = l1 ++ (p, Some e) :: l2 ->
  l2 = [].
Proof.
  intros H.
  destruct (session_sends_prefix w task) as [k Hk].
  rewrite run_receiver_sends, H, <- app_assoc in Hk. cbn [app] in Hk.
  apply receiver_loop_failed_send in Hk. by destruct l2.
Qed.

Lemma nothing_sent_after_a_failed_send_witness :
  tail (sends (utterance_session client_gone None).1.1) = [].
Proof.
  destruct (sends _) as [|x l] eqn:E; [vm_compute in E; discriminate|].
  pose proof E as E'. vm_compute in E'. injection E' as Hx _.
  cbn [tail]. subst x.
  exact (nothing_sent_after_a_failed_send _ _ [] l _ _ E).
Defined.

(** X7: a session sends the client at most one notification for each
    upstream text message. *)
Theorem at_most_one_send_per_text_message (w : session_world)
    (task : option task_state) :
  length (sends (utterance_session w task).1.1)
  <= length (filter (fun it => is_text it = true) (sw_upstream w)).
Proof.
  pose proof (session_sends_prefix w task) as Hp.
  apply prefix_length in Hp. rewrite run_receiver_sends in Hp.
  pose proof (receiver_loop_sends_bound (S (length (sw_upstream w)))
                (sw_upstream w)). lia.
Qed.

(** ** The actions of a session *)

Lemma relay_is_loop_action (tr : trace) :
  Forall (fun a => is_relay_action a = true) tr ->
  Forall (fun a => is_loop_action a = true) tr.
Proof.
  intros H. eapply Forall_impl; [exact H|].
  intros a Ha. unfold is_loop_action. rewrite Ha. by destruct a.
Qed.

Lemma forwarding_loop_actions (rounds : list round) (task : task_state) :
  Forall (fun a => is_loop_action a = true) (forwarding_loop rounds task).1.1.
Proof.
  revert task. induction rounds as [|r rounds IH]; intros task;
    cbn [forwarding_loop]; destruct (done task); try constructor; try done.
  - pose proof (relay_is_loop_action _ (resume_all_actions task)) as Ha.
    destruct (resume_all task) as [tr task']. cbn [fst snd] in *.
    constructor; [done|].
    apply Forall_app. split; [done | by repeat constructor].
  - pose proof (relay_is_loop_action _ (resume_actions (r_before r) task)) as H1.
    destruct (resume (r_before r) task) as [tr1 task1]. cbn [fst snd] in H1.
    destruct (r_wait r) as [e|].
    { cbn [fst snd]. constructor; [done|].
      apply Forall_app. split; [done | by repeat constructor]. }
    destruct (r_client r) as [frame|e].
    + pose proof (relay_is_loop_action _ (resume_actions (r_during r) task1))
        as H2.
      destruct (resume (r_during r) task1) as [tr2 task2]. cbn [fst snd] in H2.
      assert (Hround : Forall (fun a => is_loop_action a = true)
                         (round_trace tr1 tr2 frame (r_send r))).
      { unfold round_trace. constructor; [done|].
        apply Forall_app. split; [done|]. constructor; [done|].
        apply Forall_app. split; [done | by repeat constructor]. }
      unfold round_trace in Hround.
      destruct (r_send r) as [e|]; cbn [fst snd]; [exact Hround|].
      specialize (IH task2).
      destruct (forwarding_loop rounds task2) as [[tr3 task3] res].
      cbn [fst snd] in *. apply Forall_app. by split.
    + cbn [fst snd]. constructor; [done|].
      apply Forall_app. split; [done | by repeat constructor].
Qed.

(** A monitor that lets the actions of the loop pass is not moved by the
    loop. *)
Lemma forwarding_neutral (m : monitor) (s : bool) (rounds : list round)
    (task : task_state) :
  (forall a, is_loop_action a = true -> m s a = Some s) ->
  run m s (forwarding_loop rounds task).1.1 = Some s.
Proof.
  intros Hm. apply run_neutral.
  eapply Forall_impl; [apply forwarding_loop_actions|]. exact Hm.
Qed.

Lemma teardown_stale (w : session_world) (receiver_task : option task_state)
    (dg_ws : bool) :
  stale receiver_task -> stale (teardown w receiver_task dg_ws).2.
Proof.
  unfold teardown, cancel_receiver.
  destruct receiver_task as [[| |]|]; simpl; done.
Qed.

Lemma teardown_leaves_done (w : session_world) (t : task_state) (dg_ws : bool) :
  stale (teardown w (Some t) dg_ws).2.
Proof. unfold teardown, cancel_receiver. by destruct t. Qed.

(** Between two sessions [receiver_task] is never a task that still
    runs. *)
Lemma session_stale (w : session_world) (task : option task_state) :
  stale task -> stale (utterance_session w task).2.
Proof.
  intros Hs. unfold utterance_session. destruct (sw_connect w) as [e|].
  - pose proof (teardown_stale w task false Hs) as Ht.
    by destruct (teardown w task false).
  - destruct (forwarding_loop _ _) as [[tr task1] res].
    pose proof (teardown_leaves_done w task1 true) as Ht.
    by destruct (teardown w (Some task1) true).
Qed.

Lemma session_receiver (w : session_world) (task : option task_state)
    (s : bool) :
  stale task ->
  is_Some (run receiver_monitor s (utterance_session w task).1.1).
Proof.
  intros Hs. unfold utterance_session. destruct (sw_connect w) as [e|].
  - unfold teardown, cancel_receiver, close_upstream, close_session.
    destruct task as [[| |]|], (sw_dg_closed w), (sw_dg_close w),
      (sw_session_closed w), (sw_session_close w); simpl in *; try done;
      by eexists.
  - pose proof (forwarding_neutral receiver_monitor true (sw_rounds w)
                  (TPending (sw_upstream w))) as Hf.
    destruct (forwarding_loop _ _) as [[tr task1] res].
    cbn [fst snd try_finally] in *.
    assert (Ht : is_Some (run receiver_monitor true
                            (teardown w (Some task1) true).1.1)).
    { unfold teardown, cancel_receiver, close_upstream, close_session.
      destruct task1 as [| |], (sw_dg_closed w), (sw_dg_close w),
        (sw_session_closed w), (sw_session_close w); simpl; by eexists. }
    destruct (teardown w (Some task1) true) as [fin task'].
    cbn [fst snd try_finally] in *.
    rewrite run_app. cbn [app run receiver_monitor].
    rewrite Hf; [exact Ht|]. by intros [| [] | | | | | | | | | | | | | |].
Qed.

Lemma session_aiohttp (w : session_world) (task : option task_state) (s : bool) :
  is_Some (run aiohttp_monitor s (utterance_session w task).1.1).
Proof.
  unfold utterance_session. destruct (sw_connect w) as [e|].
  - unfold teardown, cancel_receiver, close_upstream, close_session.
    destruct task as [[| |]|], (sw_dg_closed w), (sw_dg_close w),
      (sw_session_closed w), (sw_session_close w); simpl; by eexists.
  - pose proof (forwarding_neutral aiohttp_monitor true (sw_rounds w)
                  (TPending (sw_upstream w))) as Hf.
    destruct (forwarding_loop _ _) as [[tr task1] res].
    assert (Ht : is_Some (run aiohttp_monitor true
                            (teardown w (Some task1) true).1.1)).
    { unfold teardown, cancel_receiver, close_upstream, close_session.
      destruct task1 as [| |], (sw_dg_closed w), (sw_dg_close w),
        (sw_session_closed w), (sw_session_close w); simpl; by eexists. }
    destruct (teardown w (Some task1) true) as [fin task'].
    cbn [fst snd try_finally] in *.
    rewrite run_app. cbn [app run aiohttp_monitor].
    rewrite Hf; [exact Ht|]. by intros [| [] | | | | | | | | | | | | | |].
Qed.

Lemma session_upstream (w : session_world) (task : option task_state) (s : bool) :
  is_Some (run upstream_monitor s (utterance_session w task).1.1).
Proof.
  unfold utterance_session. destruct (sw_connect w) as [e|].
  - unfold teardown, cancel_receiver, close_upstream, close_session.
    destruct task as [[| |]|], (sw_dg_closed w), (sw_dg_close w),
      (sw_session_closed w), (sw_session_close w); simpl; by eexists.
  - pose proof (forwarding_neutral upstream_monitor true (sw_rounds w)
                  (TPending (sw_upstream w))) as Hf.
    destruct (forwarding_loop _ _) as [[tr task1] res].
    assert (Ht : is_Some (run upstream_monitor true
                            (teardown w (Some task1) true).1.1)).
    { unfold teardown, cancel_receiver, close_upstream, close_session.
      destruct task1 as [| |], (sw_dg_closed w), (sw_dg_close w),
        (sw_session_closed w), (sw_session_close w); simpl; by eexists. }
    destruct (teardown w (Some task1) true) as [fin task'].
    cbn [fst snd try_finally] in *.
    rewrite run_app. cbn [app run upstream_monitor].
    rewrite Hf; [exact Ht|]. by intros [| [] | | | | | | | | | | | | | |].
Qed.

(** A monitor that accepts every session, from any state, and that the
    actions outside the sessions do not move, accepts every run. *)
Section SessionMonitor.
Variable m : monitor.
Hypothesis m_session :
  forall w task s, stale task -> is_Some (run m s (utterance_session w task).1.1).
Hypothesis m_outside :
  forall a s, is_session_action a = false -> m s a = Some s.

Lemma client_loop_accepted (turns : list turn) (task : option task_state)
    (s : bool) :
  stale task -> is_Some (run m s (client_loop turns task).1).
Proof using m_session m_outside.
  revert task s. induction turns as [|t turns IH]; intros task s Hs; simpl;
    [done|].
  destruct (t_text t) as [message|e]; simpl;
    [|by rewrite m_outside].
  destruct (_ ≫= _) as [act|e]; simpl; [|by rewrite m_outside].
  destruct (py_ne_str act "start_transcription").
  - specialize (IH task s Hs). destruct (client_loop turns task).
    cbn [fst run] in *. by rewrite m_outside.
  - pose proof (m_session (t_session t) task s Hs) as [s' Hs'].
    pose proof (session_stale (t_session t) task Hs) as Hstale.
    destruct (utterance_session (t_session t) task) as [session task'].
    cbn [fst snd] in *. destruct (session.2).
    + cbn [fst run]. rewrite m_outside by done. by rewrite Hs'.
    + specialize (IH task' s' Hstale). destruct (client_loop turns task').
      cbn [fst run] in *. rewrite m_outside by done.
      by rewrite run_app, Hs'.
Qed.

Lemma endpoint_accepted (c : connection) (turns : list turn) :
  is_Some (run m false (websocket_endpoint c turns).1).
Proof using m_session m_outside.
  unfold websocket_endpoint, serve.
  destruct (c_accept c) as [e0|]; [cbn [fst run]; by rewrite m_outside|].
  destruct (c_client c) as [a|]; [|cbn [fst run]; by rewrite m_outside].
  pose proof (client_loop_accepted turns None false I) as [s Hs].
  destruct (client_loop turns None) as [tr r]. cbn [fst] in Hs.
  destruct (on_exit r) as [tr' e] eqn:He. cbn [fst run].
  rewrite !m_outside by done. rewrite run_app, Hs. unfold on_exit in He.
  destruct r as [|e0]; [by injection He as <- <-|].
  destruct (is_disconnect e0), (is_Exception e0); injection He as <- <-;
    cbn [run]; by rewrite !m_outside.
Qed.
End SessionMonitor.

(** X8: a relay task is cancelled only by the session that created it.
    In every run a session creates at most one relay task, and the teardown
    cancels a relay task only if this session created it, and once at most:
    the [receiver_task] that a former session left bound is done, so the
    teardown after a failed connect cancels nothing. *)
Theorem relay_cancelled_by_its_session (c : connection) (turns : list turn) :
  is_Some (run receiver_monitor false (websocket_endpoint c turns).1).
Proof.
  apply endpoint_accepted.
  - intros w task s Hs. by apply session_receiver.
  - by intros [| [] | | | | | | | | | | | | | |] s.
Qed.

(** X9: the handler releases only what it holds.  In every run an
    aiohttp session is closed only after it was opened and once at most;
    the relay is started, audio is sent upstream and the upstream connection
    is closed only in a session whose connect went through, and not after
    the handler closed the connection. *)
Theorem resources_used_while_held (c : connection) (turns : list turn) :
  is_Some (run aiohttp_monitor false (websocket_endpoint c turns).1) /\
  is_Some (run upstream_monitor false (websocket_endpoint c turns).1).
Proof.
  split; apply endpoint_accepted.
  - intros w task s _. apply session_aiohttp.
  - by intros [| [] | | | | | | | | | | | | | |] s.
  - intros w task s _. apply session_upstream.
  - by intros [| [] | [] | | | | | | | | | | | | |] s.
Qed.

(** ** The outer loop over many turns *)

Lemma session_actions (w : session_world) (task : option task_state) :
  Forall (fun a => is_session_action a = true) (utterance_session w task).1.1.
Proof.
  unfold utterance_session. destruct (sw_connect w) as [e|].
  - unfold teardown, cancel_receiver, close_upstream, close_session.
    destruct task as [[| |]|], (sw_dg_closed w), (sw_dg_close w),
      (sw_session_closed w), (sw_session_close w); simpl;
      by repeat constructor.
  - pose proof (forwarding_loop_actions (sw_rounds w) (TPending (sw_upstream w)))
      as Hf.
    destruct (forwarding_loop _ _) as [[tr task1] res].
    assert (Ht : Forall (fun a => is_session_action a = true)
                   (teardown w (Some task1) true).1.1).
    { unfold teardown, cancel_receiver, close_upstream, close_session.
      destruct task1 as [| |], (sw_dg_closed w), (sw_dg_close w),
        (sw_session_closed w), (sw_session_close w); simpl;
        by repeat constructor. }
    destruct (teardown w (Some task1) true) as [fin task'].
    cbn [fst snd try_finally] in *.
    apply Forall_app. split; [|exact Ht].
    repeat (constructor; [done|]).
    eapply Forall_impl; [exact Hf|].
    intros a Ha. unfold is_session_action. rewrite Ha. by destruct a as [| []| | | | | | | | | | | | | |].
Qed.

Lemma omap_none {A B : Type} (f : A -> option B) (l : list A) :
  Forall (fun a => f a = None) l -> omap f l = [].
Proof. induction 1 as [|a l Ha _ IH]; [done|]. cbn. by rewrite Ha. Qed.

Lemma session_texts (w : session_world) (task : option task_state) :
  texts_read (utterance_session w task).1.1 = [].
Proof.
  apply omap_none. eapply Forall_impl; [apply session_actions|].
  by intros [| [] | | | | | | | | | | | | | |].
Qed.

Lemma session_exit_lines (w : session_world) (task : option task_state) :
  exit_lines (utterance_session w task).1.1 = [].
Proof.
  apply omap_none. eapply Forall_impl; [apply session_actions|].
  by intros [| [] | | | | | | | | | | | | | |].
Qed.

Lemma clean_session_ok (w : session_world) (task : option task_state) :
  clean_session w -> (utterance_session w task).1.2 = None.
Proof.
  intros (Hc & Hr & Hd & Hs). unfold utterance_session. rewrite Hc.
  pose proof (forwarding_ok _ (TPending (sw_upstream w)) Hr) as Hf.
  destruct (forwarding_loop _ _) as [[tr task1] res].
  pose proof (teardown_ok w (Some task1) true Hd Hs) as Ht.
  destruct (teardown w (Some task1) true) as [fin task'].
  cbn [fst snd try_finally] in *. by rewrite Ht, Hf.
Qed.

Lemma client_loop_texts (turns : list turn) (task : option task_state) :
  texts_read (client_loop turns task).1 `prefix_of` texts_offered turns.
Proof.
  revert task. induction turns as [|t turns IH]; intros task;
    unfold texts_offered; cbn [client_loop omap list_omap]; [done|].
  destruct (t_text t) as [message|e]; [|apply prefix_nil].
  destruct (_ ≫= _) as [act|e]; [|apply prefix_cons, prefix_nil].
  destruct (py_ne_str act "start_transcription").
  - specialize (IH task). destruct (client_loop turns task).
    by apply prefix_cons.
  - pose proof (session_texts (t_session t) task) as Hs.
    destruct (utterance_session (t_session t) task) as [session task'].
    cbn [fst snd] in *. destruct (session.2).
    + cbn [fst]. unfold texts_read in *. cbn [omap list_omap]. rewrite Hs.
      apply prefix_cons, prefix_nil.
    + specialize (IH task'). destruct (client_loop turns task').
      cbn [fst] in *. unfold texts_read in *. cbn [omap list_omap].
      rewrite omap_app, Hs. by apply prefix_cons.
Qed.

Lemma client_loop_clean (turns : list turn) (task : option task_state) :
  Forall clean_turn turns ->
  texts_read (client_loop turns task).1 = texts_offered turns /\
  (client_loop turns task).2 = AwaitingStart.
Proof.
  intros H. revert task.
  induction H as [|t turns (message & fields & Hm & Hd & Hclean) _ IH];
    intros task; unfold texts_offered; cbn [client_loop omap list_omap];
    [done|].
  rewrite Hm. unfold mbind, result_bind. rewrite Hd. cbn [py_get].
  destruct (py_ne_str (default JNull (fields !! "action")) "start_transcription")
    eqn:Hact.
  - replace (match fields !! "action" with Some x => Ok x | None => Ok JNull end)
      with (Ok (default JNull (fields !! "action")))
      by (by destruct (fields !! "action")).
    cbn beta iota. rewrite Hact.
    destruct (IH task) as [IH1 IH2]. destruct (client_loop turns task).
    cbn [fst snd] in *. unfold texts_read in *. cbn [omap list_omap].
    by rewrite IH1.
  - assert (Hstart : fields !! "action" = Some (JStr "start_transcription")).
    { destruct (fields !! "action") as [[| | |s| |]|]; simpl in Hact; try done.
      apply negb_false_iff, String.eqb_eq in Hact. by subst. }
    rewrite Hstart. cbn beta iota. cbn [py_ne_str].
    replace (String.eqb "start_transcription" "start_transcription") with true
      by (symmetry; apply String.eqb_refl).
    cbn [negb].
    pose proof (clean_session_ok (t_session t) task (Hclean Hstart)) as Hok.
    pose proof (session_texts (t_session t) task) as Hs.
    destruct (utterance_session (t_session t) task) as [session task'].
    cbn [fst snd] in *. rewrite Hok.
    destruct (IH task') as [IH1 IH2]. destruct (client_loop turns task').
    cbn [fst snd] in *. unfold texts_read in *. cbn [omap list_omap].
    by rewrite omap_app, Hs, IH1.
Qed.

Lemma serve_texts (turns : list turn) :
  texts_read (serve turns).1 = texts_read (client_loop turns None).1.
Proof.
  unfold serve. destruct (client_loop turns None) as [tr r].
  destruct (on_exit r) as [tr' e] eqn:He. cbn [fst].
  unfold texts_read. cbn [omap list_omap]. rewrite omap_app.
  unfold on_exit in He.
  destruct r as [|e0]; [injection He as <- <-; by rewrite app_nil_r|].
  destruct (is_disconnect e0), (is_Exception e0); injection He as <- <-;
    by rewrite app_nil_r.
Qed.

(** X10: the handler serves the client turn after turn.  The text frames
    it reads are, in order, a prefix of those the client sends; and when
    the connection comes up, every frame is a JSON object and nothing fails
    on the side of the handler in the sessions they start, it reads them
    all, runs every session to the end of its teardown and is left waiting
    for the next frame with the connection open, however many sessions
    there were. *)
Theorem handler_serves_every_turn (c : connection) (turns : list turn) :
  texts_read (websocket_endpoint c turns).1 `prefix_of` texts_offered turns /\
  (connects c -> Forall clean_turn turns ->
   texts_read (websocket_endpoint c turns).1 = texts_offered turns /\
   (websocket_endpoint c turns).2 = ConnectionOpen).
Proof.
  unfold websocket_endpoint, connects. split.
  - destruct (c_accept c) as [e0|]; [apply prefix_nil|].
    destruct (c_client c) as [a|]; [|apply prefix_nil].
    pose proof (serve_texts turns) as Hs.
    destruct (serve turns) as [tr e]. cbn [fst] in *.
    change (texts_read (AAccept :: tr)) with (texts_read tr).
    rewrite Hs. apply client_loop_texts.
  - intros [-> Hc] H. destruct (c_client c) as [a|]; [|done].
    destruct (client_loop_clean turns None H) as [H1 H2].
    pose proof (serve_texts turns) as Hs. unfold serve in *.
    destruct (client_loop turns None) as [tr r]. cbn [snd] in H2. subst r.
    cbn [on_exit fst snd] in *.
    change (texts_read (AAccept :: ALog LogClientConnected :: tr ++ []))
      with (texts_read (ALog LogClientConnected :: tr ++ [])).
    by rewrite Hs.
Qed.

Lemma handler_serves_every_turn_witness :
  (websocket_endpoint connected
     [says start_signal utterance; says (q "{'action': 'stop'}") quiet;
      says start_signal garbled; says start_signal utterance]).2
  = ConnectionOpen.
Proof.
  apply handler_serves_every_turn; [by split|].
  repeat constructor;
    (eexists _, _; split; [reflexivity|]; split; [vm_compute; reflexivity|];
     first [ intros _; repeat split; repeat constructor; eexists; reflexivity
           | vm_compute; discriminate ]).
Defined.

Lemma client_loop_exit_lines (turns : list turn) (task : option task_state) :
  exit_lines (client_loop turns task).1 = [].
Proof.
  revert task. induction turns as [|t turns IH]; intros task; simpl; [done|].
  destruct (t_text t) as [message|e]; [|done].
  destruct (_ ≫= _) as [act|e]; [|done].
  destruct (py_ne_str act "start_transcription").
  - specialize (IH task). by destruct (client_loop turns task).
  - pose proof (session_exit_lines (t_session t) task) as Hs.
    destruct (utterance_session (t_session t) task) as [session task'].
    cbn [fst snd] in *. destruct (session.2); [exact Hs|].
    specialize (IH task'). destruct (client_loop turns task').
    cbn [fst] in *. unfold exit_lines in *. cbn [omap list_omap].
    by rewrite omap_app, Hs, IH.
Qed.

(** X11: how a run ends shows in its last lines.  While the handler is
    on the connection none of the three lines of its handlers is printed.
    When it returns it has printed either the disconnect line or the error
    line, with an exception that is an [Exception] and no disconnect, and
    then the closing line, as its last action.  When an exception leaves
    it, either the connection did not come up, [accept] raised or the
    client has no address (lines 55 and 56 are outside the [try]), and none
    of the lines is printed; or the connection came up, the exception is no
    [Exception], and the closing line alone is printed, as the last
    action. *)
Theorem exit_is_logged_once (c : connection) (turns : list turn) :
  let tr := (websocket_endpoint c turns).1 in
  match (websocket_endpoint c turns).2 with
  | ConnectionOpen => exit_lines tr = []
  | Returned =>
      last tr = Some (ALog LogClosing) /\
      (exit_lines tr = [LogClientDisconnected; LogClosing] \/
       exists e, is_Exception e = true /\ is_disconnect e = false /\
                 exit_lines tr = [LogError e; LogClosing])
  | Propagated e =>
      (~ connects c /\ exit_lines tr = [] /\
       (c_accept c = Some e \/ c_client c = None /\ e = AttributeError)) \/
      (connects c /\ last tr = Some (ALog LogClosing) /\
       is_Exception e = false /\ exit_lines tr = [LogClosing])
  end.
Proof.
  unfold websocket_endpoint, serve, connects.
  destruct (c_accept c) as [e0|] eqn:Ha.
  { left. repeat split; [by intros [? _] | by left]. }
  destruct (c_client c) as [a|] eqn:Hcl.
  2: { left. repeat split; [by intros [_ ?] | by right]. }
  pose proof (client_loop_exit_lines turns None) as Hc.
  destruct (client_loop turns None) as [tr r]. cbn [fst] in Hc.
  destruct (on_exit r) as [tr' e] eqn:He. cbn [fst snd]. cbn zeta.
  assert (Hx : exit_lines (AAccept :: ALog LogClientConnected :: tr ++ tr')
               = exit_lines tr').
  { unfold exit_lines in *. cbn [omap list_omap]. by rewrite omap_app, Hc. }
  rewrite Hx. rewrite !app_comm_cons. unfold on_exit in He.
  destruct r as [|e0]; [by injection He as <- <-|].
  destruct (is_disconnect e0) eqn:Hdis; [|destruct (is_Exception e0) eqn:Hexc];
    injection He as <- <-.
  - split; [|by left].
    change [ALog LogClientDisconnected; ALog LogClosing]
      with ([ALog LogClientDisconnected] ++ [ALog LogClosing]).
    by rewrite !app_assoc, last_snoc.
  - split; [|right; by exists e0].
    change [ALog (LogError e0); ALog LogClosing]
      with ([ALog (LogError e0)] ++ [ALog LogClosing]).
    by rewrite !app_assoc, last_snoc.
  - right. split; [done|]. split; [by rewrite last_snoc|done].
Qed.

(** X12: a text frame that is not a JSON object ends the handler.  When
    the frame does not decode ([JSONDecodeError], or [ValueError] at the
    digit limit) or decodes to something that is not an object
    ([AttributeError] on [get]), the outer loop is left at once: no session
    starts, no later frame is read, and the handler logs the error and
    returns. *)
Theorem invalid_frame_ends_handler (message : string) (e : exn)
    (w : session_world) (turns : list turn) (task : option task_state) :
  frame_error message e ->
  client_loop (says message w :: turns) task =
    ([AReceiveText (Got message)], Left e) /\
  on_exit (Left e) = ([ALog (LogError e); ALog LogClosing], Returned).
Proof.
  intros [e' Hd | v Hd Hv]; split;
    try (unfold says; cbn [client_loop t_text]; unfold mbind, result_bind;
         rewrite Hd).
  - done.
  - destruct (json_loads_raises_Exception _ _ Hd) as [He Hdis].
    unfold on_exit. by rewrite Hdis, He.
  - destruct v; try done. by destruct (Hv fields).
  - done.
Qed.

Lemma invalid_frame_ends_handler_witness :
  websocket_endpoint connected [says (q "'start_transcription'") quiet;
                      says start_signal utterance] =
  ([AAccept; ALog LogClientConnected;
    AReceiveText (Got (q "'start_transcription'"));
    ALog (LogError AttributeError); ALog LogClosing],
   Returned).
Proof.
  unfold websocket_endpoint, serve. cbn [connected c_accept c_client].
  destruct (invalid_frame_ends_handler (q "'start_transcription'")
              AttributeError quiet [says start_signal utterance] None)
    as [-> ->]; [|reflexivity].
  eapply frame_not_object; [vm_compute; reflexivity | discriminate].
Defined.

(** ** Failures of the teardown and the cancelling of the relay *)

(** X13: an exception of the teardown replaces the one under way.  When a
    close in the teardown of a session raises, that exception is the one
    that leaves the outer loop, whatever ended the session before (a failed
    connect, a client that went away, a failed send): the handlers of the
    outer [try] see the close failure, not the first failure. *)
Theorem close_failure_replaces_exception (message : string)
    (w : session_world) (e : exn) (turns : list turn)
    (task : option task_state) :
  is_start_signal message ->
  teardown_raises w e ->
  (client_loop (says message w :: turns) task).2 = Left e.
Proof.
  intros Hm Hr. rewrite (client_loop_start _ _ _ _ Hm). cbn zeta.
  assert (Hs : (utterance_session w task).1.2 = Some e).
  { unfold utterance_session, teardown, cancel_receiver, close_upstream,
      close_session.
    destruct Hr as [(Hc & Hcl & Hd) | (Hno & Hcl & Hs)].
    - rewrite Hc, Hcl, Hd.
      destruct (forwarding_loop _ _) as [[tr task1] res].
      by destruct (done task1).
    - rewrite Hcl, Hs. destruct (sw_connect w) as [e0|].
      + by destruct task as [[| |]|].
      + destruct (forwarding_loop _ _) as [[tr task1] res].
        destruct Hno as [Hno | [-> | ->]]; [done| |];
          by destruct (done task1), (sw_dg_closed w). }
  by rewrite Hs.
Qed.

Lemma close_failure_replaces_exception_witness :
  websocket_endpoint connected [says start_signal close_crashes] =
  ([AAccept; ALog LogClientConnected; AReceiveText (Got start_signal);
    ALog LogStartSignal; AOpenSession; AConnect None; ACreateReceiver;
    ACreateClientTask; AClientTaskDone (Failed WebSocketDisconnect);
    ACancelReceiver; ACloseUpstream None; ACloseSession (Some RuntimeError);
    ALog (LogError RuntimeError); ALog LogClosing],
   Returned).
Proof.
  pose proof (close_failure_replaces_exception start_signal close_crashes
                RuntimeError [] None start_signal_is_start) as H.
  unfold websocket_endpoint, serve. cbn [connected c_accept c_client].
  destruct (client_loop [says start_signal close_crashes] None) as [tr r] eqn:E.
  cbn [snd] in H. rewrite H; [|right; repeat split; by right; right].
  cbn [on_exit is_disconnect is_Exception]. f_equal.
  assert (Htr : tr = (client_loop [says start_signal close_crashes] None).1)
    by (by rewrite E).
  rewrite Htr. vm_compute. reflexivity.
Defined.


